(** * genalias.py: CIDR merging and the address pipeline

    A shallow embedding of [src/genalias.py] ([merge], [resolve_dns],
    [iter_field], [run] and its inner [add_addr]) together with the parts of
    Python's [ipaddress] and [urllib.parse] modules that these functions call. *)

From Stdlib Require Import ZArith List Bool Lia String Ascii Permutation.
Import ListNotations.
Open Scope Z_scope.

(** ** Networks of one address family

    An [ipaddress.IPv4Network] / [IPv6Network] stores its network address
    as an integer and its prefix length; [w] is the family's
    [_max_prefixlen] (32 or 128). *)

Record net := mknet { network_address : Z; prefixlen : Z }.

Section Family.

Variable w : Z.

(** [_ALL_ONES = (2**w) - 1] *)
Definition ALL_ONES : Z := Z.ones w.

(** [_ip_int_from_prefix]: [_ALL_ONES ^ (_ALL_ONES >> prefixlen)] *)
Definition netmask_int (p : Z) : Z := Z.lxor ALL_ONES (Z.shiftr ALL_ONES p).

(** [hostmask = netmask ^ _ALL_ONES] *)
Definition hostmask_int (p : Z) : Z := Z.lxor (netmask_int p) ALL_ONES.

(** [broadcast_address = network_address | hostmask] *)
Definition broadcast_address (n : net) : Z :=
  Z.lor (network_address n) (hostmask_int (prefixlen n)).

(** [_BaseNetwork.__eq__] within one family: same network address and
    same netmask. *)
Definition net_eqb (a b : net) : bool :=
  (network_address a =? network_address b)
  && (netmask_int (prefixlen a) =? netmask_int (prefixlen b)).

Fixpoint nets_eqb (l1 l2 : list net) : bool :=
  match l1, l2 with
  | [], [] => true
  | a :: t1, b :: t2 => net_eqb a b && nets_eqb t1 t2
  | _, _ => false
  end.

(** [_BaseNetwork.__lt__] within one family. *)
Definition net_lt (a b : net) : bool :=
  if negb (network_address a =? network_address b)
  then network_address a <? network_address b
  else if negb (netmask_int (prefixlen a) =? netmask_int (prefixlen b))
  then netmask_int (prefixlen a) <? netmask_int (prefixlen b)
  else false.

(** [_is_subnet_of(a, b)], i.e. [a.subnet_of(b)]. *)
Definition subnet_of (a b : net) : bool :=
  (network_address b <=? network_address a)
  && (broadcast_address a <=? broadcast_address b).

(** [supernet()] with the default [prefixlen_diff=1]. *)
Definition supernet (n : net) : net :=
  if prefixlen n =? 0 then n
  else mknet (Z.land (network_address n) (Z.shiftl (netmask_int (prefixlen n)) 1))
             (prefixlen n - 1).

(** Python's [range(start, stop, step)] for a positive [step]. *)
Definition py_range (start stop step : Z) : list Z :=
  map (fun i => start + Z.of_nat i * step)
      (seq 0 (Z.to_nat ((stop - start + step - 1) / step))).

(** [subnets()] with the default [prefixlen_diff=1]. *)
Definition subnets (n : net) : list net :=
  if prefixlen n =? w then [n]
  else
    let start := network_address n in
    let stop := broadcast_address n + 1 in
    let step := Z.shiftr (hostmask_int (prefixlen n) + 1) 1 in
    map (fun a => mknet a (prefixlen n + 1)) (py_range start stop step).

(** The networks [ip_network] can build with [strict=True]: prefix length in
    range, address in range, host bits clear. *)
Definition wfb (n : net) : bool :=
  (0 <=? prefixlen n) && (prefixlen n <=? w)
  && (0 <=? network_address n) && (network_address n <? 2 ^ w)
  && (network_address n mod 2 ^ (w - prefixlen n) =? 0).

Definition wf (n : net) : Prop := wfb n = true.

(** An individual address [x] lies in the network [n]. *)
Definition covers (n : net) (x : Z) : bool :=
  (network_address n <=? x) && (x <=? broadcast_address n).

Definition covers_list (l : list net) (x : Z) : bool :=
  existsb (fun n => covers n x) l.

(** ** [sorted] *)

(** Python's [sorted] is stable; so is this insertion sort, which places an
    element before the first one that is not smaller than it.  For the strict
    order [net_lt] both produce the same list. *)
Fixpoint insert (a : net) (l : list net) : list net :=
  match l with
  | [] => [a]
  | b :: t => if net_lt b a then b :: insert a t else a :: b :: t
  end.

Fixpoint sort (l : list net) : list net :=
  match l with
  | [] => []
  | a :: t => insert a (sort t)
  end.

(** ** [merge]

    The accumulator [merged] is a Python list used as a stack through
    [merged[-1]], [del merged[-1]] and [merged.append]; it is held here in
    reverse, its last element first.  One call of [add_merged] runs the
    [while merged:] loop, each iteration of which pops one element. *)

Fixpoint add_merged (merged : list net) (addr : net) : list net :=
  match merged with
  | [] => [addr]
  | prev :: rest =>
      if subnet_of addr prev then merged
      else
        let addr_super := supernet addr in
        if negb (nets_eqb (subnets addr_super) [prev; addr]) then addr :: merged
        else add_merged rest addr_super
  end.

Definition merge (addrs : list net) : list net :=
  let addrs := sort addrs in
  match addrs with
  | [] => []
  | _ => rev (fold_left add_merged addrs [])
  end.

End Family.

Definition ip4 (a b c d : Z) : Z := a * 2 ^ 24 + b * 2 ^ 16 + c * 2 ^ 8 + d.

(** ** The networks [add_addr] handles *)

Inductive ip_net :=
| IPv4Network (n : net)
| IPv6Network (n : net).

Definition ip_width (a : ip_net) : Z :=
  match a with IPv4Network _ => 32 | IPv6Network _ => 128 end.

Definition ip_block (a : ip_net) : net :=
  match a with IPv4Network n | IPv6Network n => n end.

(** [_BaseNetwork.__eq__]: same version, address and netmask. *)
Definition ip_net_eqb (a b : ip_net) : bool :=
  match a, b with
  | IPv4Network x, IPv4Network y => net_eqb 32 x y
  | IPv6Network x, IPv6Network y => net_eqb 128 x y
  | _, _ => false
  end.

(** The part of the [ipaddress] module that [add_addr] uses: the parser
    ([None] where it raises) and the six network predicates. *)
Record ipaddress_lib := {
  ip_network : string -> option ip_net;
  is_multicast : ip_net -> bool;
  is_private : ip_net -> bool;
  is_unspecified : ip_net -> bool;
  is_reserved : ip_net -> bool;
  is_loopback : ip_net -> bool;
  is_link_local : ip_net -> bool
}.

(** ** State of [run]: the sets [addrs] and [domains] and the log *)

Inductive reject_reason := Multicast | Private | Unspecified | Reserved | Loopback | LinkLocal.

Inductive log_event :=
| CantParseIP (text : string)
| Ignoring (r : reject_reason) (n : ip_net)
| CantParseURL (url : string).

Record run_state := mkstate {
  addrs : list ip_net;
  domains : list (option string);
  log : list log_event
}.

Definition empty_state : run_state := mkstate [] [] [].

(** [set.add]: membership by the element type's [__eq__]. *)
Definition set_add {A : Type} (eqb : A -> A -> bool) (x : A) (s : list A) : list A :=
  if existsb (eqb x) s then s else s ++ [x].

Definition push_log (e : log_event) (st : run_state) : run_state :=
  mkstate (addrs st) (domains st) (log st ++ [e]).

Definition add_to_addrs (a : ip_net) (st : run_state) : run_state :=
  mkstate (set_add ip_net_eqb a (addrs st)) (domains st) (log st).

Definition opt_string_eqb (a b : option string) : bool :=
  match a, b with
  | Some x, Some y => String.eqb x y
  | None, None => true
  | _, _ => false
  end.

Definition add_to_domains (d : option string) (st : run_state) : run_state :=
  mkstate (addrs st) (set_add opt_string_eqb d (domains st)) (log st).

(** [add_addr], the closure of [run] over [addrs]. *)
Definition add_addr (lib : ipaddress_lib) (addr : string) (st : run_state) : run_state :=
  match ip_network lib addr with
  | None => push_log (CantParseIP addr) st
  | Some ipaddr =>
      if is_multicast lib ipaddr then push_log (Ignoring Multicast ipaddr) st
      else if is_private lib ipaddr then push_log (Ignoring Private ipaddr) st
      else if is_unspecified lib ipaddr then push_log (Ignoring Unspecified ipaddr) st
      else if is_reserved lib ipaddr then push_log (Ignoring Reserved ipaddr) st
      else if is_loopback lib ipaddr then push_log (Ignoring Loopback ipaddr) st
      else if is_link_local lib ipaddr then push_log (Ignoring LinkLocal ipaddr) st
      else add_to_addrs ipaddr st
  end.

(** ** Strings: [str.split], [str.strip], [iter_field] *)

(** [str.split(sep)] with a one-character separator. *)
Fixpoint py_split_aux (sep : ascii) (s : string) (cur : list ascii) : list string :=
  match s with
  | EmptyString => [string_of_list_ascii (rev cur)]
  | String c s' =>
      if Ascii.eqb c sep then string_of_list_ascii (rev cur) :: py_split_aux sep s' []
      else py_split_aux sep s' (c :: cur)
  end.

Definition py_split (sep : ascii) (s : string) : list string := py_split_aux sep s [].

(** The ASCII characters for which [str.isspace] holds. *)
Definition is_py_space (c : ascii) : bool :=
  let n := nat_of_ascii c in
  ((9 <=? n) && (n <=? 13))%nat || ((28 <=? n) && (n <=? 32))%nat.

Fixpoint lstrip_list (f : ascii -> bool) (l : list ascii) : list ascii :=
  match l with
  | [] => []
  | c :: l' => if f c then lstrip_list f l' else l
  end.

(** [str.strip()] *)
Definition py_strip (s : string) : string :=
  string_of_list_ascii
    (rev (lstrip_list is_py_space (rev (lstrip_list is_py_space (list_ascii_of_string s))))).

Definition iter_field (field : string) : list string :=
  filter (fun item => negb (String.eqb item EmptyString)) (map py_strip (py_split "|" field)).

(** ** [urllib.parse.urlsplit(url, scheme='http').hostname]

    [None] where [urlsplit] raises [ValueError].  Covered: leading C0/space
    stripping, removal of tab, CR and LF, scheme detection, the [//netloc]
    split, the bracket checks that raise, and the [hostname] property.  The
    validation of the text inside brackets as an IPv6 literal and the NFKC
    check of non-ASCII netlocs are not modelled (they accept here). *)

Definition scheme_char (c : ascii) : bool :=
  let n := nat_of_ascii c in
  ((97 <=? n) && (n <=? 122))%nat || ((65 <=? n) && (n <=? 90))%nat
  || ((48 <=? n) && (n <=? 57))%nat || (n =? 43)%nat || (n =? 45)%nat || (n =? 46)%nat.

Definition is_ascii_alpha (c : ascii) : bool :=
  let n := nat_of_ascii c in ((97 <=? n) && (n <=? 122))%nat || ((65 <=? n) && (n <=? 90))%nat.

Definition ascii_lower (c : ascii) : ascii :=
  let n := nat_of_ascii c in
  if ((65 <=? n) && (n <=? 90))%nat then ascii_of_nat (n + 32) else c.

(** [s.partition(c)] on character lists: before, found, after. *)
Fixpoint partition_list (c : ascii) (l : list ascii) : list ascii * bool * list ascii :=
  match l with
  | [] => ([], false, [])
  | x :: l' =>
      if Ascii.eqb x c then ([], true, l')
      else let '(b, f, a) := partition_list c l' in (x :: b, f, a)
  end.

(** [s.rpartition(c)[2]] *)
Definition after_last (c : ascii) (l : list ascii) : list ascii :=
  let '(b, f, a) := partition_list c (rev l) in if f then rev b else l.

(** [url.find(':')]: the scheme prefix when it is one. *)
Definition split_scheme (l : list ascii) : list ascii :=
  let '(b, f, a) := partition_list ":" l in
  match b with
  | c :: _ => if f && is_ascii_alpha c && forallb scheme_char b then a else l
  | [] => l
  end.

(** [_splitnetloc(url, 2)]: the netloc part, up to the first of [/?#]. *)
Fixpoint netloc_part (l : list ascii) : list ascii :=
  match l with
  | [] => []
  | c :: l' =>
      if Ascii.eqb c "/" || Ascii.eqb c "?" || Ascii.eqb c "#" then [] else c :: netloc_part l'
  end.

(** [_check_bracketed_netloc], without the check of the host text. *)
Definition bracketed_netloc_ok (netloc : list ascii) : bool :=
  let '(before_br, have_br, bracketed) := partition_list "[" (after_last "@" netloc) in
  if have_br then
    match before_br with
    | _ :: _ => false
    | [] =>
        let '(_, _, port) := partition_list "]" bracketed in
        match port with
        | [] => true
        | c :: _ => Ascii.eqb c ":"
        end
    end
  else true.

(** The [hostname] property of the split result. *)
Definition hostname_of (netloc : list ascii) : option string :=
  let hostinfo := after_last "@" netloc in
  let '(_, have_br, bracketed) := partition_list "[" hostinfo in
  let hostname :=
    if have_br then fst (fst (partition_list "]" bracketed))
    else fst (fst (partition_list ":" hostinfo)) in
  match hostname with
  | [] => None
  | _ =>
      let '(h, pct, zone) := partition_list "%" hostname in
      Some (string_of_list_ascii (map ascii_lower h ++ (if pct then ["%"%char] else []) ++ zone))
  end.

Definition urlsplit_hostname (url : string) : option (option string) :=
  let l := lstrip_list (fun c => (nat_of_ascii c <=? 32)%nat) (list_ascii_of_string url) in
  let l := filter (fun c => negb (Ascii.eqb c "009" || Ascii.eqb c "013" || Ascii.eqb c "010")) l in
  let l := split_scheme l in
  let netloc := match l with
                | "/"%char :: "/"%char :: rest => netloc_part rest
                | _ => []
                end in
  let has_open := existsb (fun c => Ascii.eqb c "[") netloc in
  let has_close := existsb (fun c => Ascii.eqb c "]") netloc in
  if (has_open && negb has_close) || (has_close && negb has_open) then None
  else if has_open && has_close && negb (bracketed_netloc_ok netloc) then None
  else Some (hostname_of netloc).

(** ** [run] *)

Inductive py_exn := StopIteration | IndexError | ValueError.

Definition strip_wildcard (domain : string) : string :=
  match domain with
  | String "*" (String "." rest) => rest
  | _ => domain
  end.

(** Lines 120-125. *)
Definition add_domain_token (st : run_state) (domain : string) : run_state :=
  let domain := strip_wildcard domain in
  if String.eqb domain EmptyString then st else add_to_domains (Some domain) st.

(** Lines 127-132. *)
Definition add_url_token (st : run_state) (url : string) : run_state :=
  match urlsplit_hostname url with
  | None => push_log (CantParseURL url) st
  | Some hostname => add_to_domains hostname st
  end.

(** One iteration of [for row in reader] (lines 113-132). *)
Definition process_row (lib : ipaddress_lib) (dns_jobs : Z) (st : run_state) (row : list string)
  : py_exn + run_state :=
  match nth_error row 0 with
  | None => inl IndexError
  | Some field0 =>
      let st := fold_left (fun st a => add_addr lib a st) (iter_field field0) st in
      if dns_jobs =? 0 then inr st
      else
        match nth_error row 1 with
        | None => inl IndexError
        | Some field1 =>
            let st := fold_left add_domain_token (iter_field field1) st in
            match nth_error row 2 with
            | None => inl IndexError
            | Some field2 => inr (fold_left add_url_token (iter_field field2) st)
            end
        end
  end.

Fixpoint process_rows (lib : ipaddress_lib) (dns_jobs : Z) (rows : list (list string))
  (st : run_state) : py_exn + run_state :=
  match rows with
  | [] => inr st
  | row :: rows' =>
      match process_row lib dns_jobs st row with
      | inl e => inl e
      | inr st' => process_rows lib dns_jobs rows' st'
      end
  end.

(** Lines 142-145: the results of [resolve_dns] over [domains], in the
    set's iteration order, each fed to [add_addr]. *)
Definition resolve_domains (lib : ipaddress_lib) (resolve : option string -> list string)
  (st : run_state) : run_state :=
  fold_left (fun st d => fold_left (fun st a => add_addr lib a st) (resolve d) st) (domains st) st.

Definition v4_blocks (l : list ip_net) : list net :=
  fold_right (fun a acc => match a with IPv4Network n => n :: acc | IPv6Network _ => acc end) [] l.

Definition v6_blocks (l : list ip_net) : list net :=
  fold_right (fun a acc => match a with IPv6Network n => n :: acc | IPv4Network _ => acc end) [] l.

(** [run] on the records of the dump: the exception it raises, or
    [(merged_v4, merged_v6)] with the final state.  [resolve] is the
    address list that [resolve_dns] returns for a domain;
    [ThreadPoolExecutor(max_workers=dns_jobs)] raises [ValueError] for a
    negative [dns_jobs]. *)
Definition run (lib : ipaddress_lib) (resolve : option string -> list string)
  (dump_csv : list (list string)) (dns_jobs : Z) : py_exn + (list net * list net * run_state) :=
  match dump_csv with
  | [] => inl StopIteration
  | _header :: rows =>
      match process_rows lib dns_jobs rows empty_state with
      | inl e => inl e
      | inr st =>
          let resolved :=
            if dns_jobs =? 0 then inr st
            else if dns_jobs <? 0 then inl ValueError
            else inr (resolve_domains lib resolve st) in
          match resolved with
          | inl e => inl e
          | inr st =>
              inr (merge 32 (v4_blocks (addrs st)), merge 128 (v6_blocks (addrs st)), st)
          end
      end
  end.

(** ** [resolve_dns]

    [getaddrinfo d k] is the outcome of the [k]-th call for [d]: the
    [sockaddr[0]] strings of its result list, or the [args[0]] of the
    exception it raises.  [fuel] bounds the iterations of [while True];
    [None] means no return within [fuel] iterations.  The trace records the
    calls, the log records and the sleeps, in milliseconds. *)

Definition EAI_AGAIN : Z := -3.

Inductive gai_result := GaiOk (sockaddrs : list string) | GaiError (code : Z).

Inductive dns_event :=
| Lookup (domain : option string)
| LogCantResolve (domain : option string) (code : Z)
| LogRetry (domain : option string)
| Sleep (ms : Z).

Section ResolveDns.

Variable getaddrinfo : option string -> nat -> gai_result.

Fixpoint resolve_loop (fuel : nat) (domain : option string) (attempt : nat)
  (addrs : list string) (trace : list dns_event) : option (list string * list dns_event) :=
  match fuel with
  | O => None
  | S fuel' =>
      match getaddrinfo domain attempt with
      | GaiOk sockaddrs =>
          Some (fold_left (fun s a => set_add String.eqb a s) sockaddrs addrs,
                trace ++ [Lookup domain])
      | GaiError code =>
          let trace := trace ++ [Lookup domain; LogCantResolve domain code] in
          if code =? EAI_AGAIN
          then resolve_loop fuel' domain (S attempt) addrs (trace ++ [LogRetry domain; Sleep 500])
          else Some (addrs, trace)
      end
  end.

Definition resolve_dns (fuel : nat) (domain : option string) : option (list string * list dns_event) :=
  resolve_loop fuel domain 0 [] [].

End ResolveDns.

(** ** The [ipaddress] module of Python 3.11

    The text parser covers IPv4 networks written as a dotted quad with an
    optional decimal prefix length (strict: host bits must be clear); it
    rejects the netmask form and IPv6 text.  The predicates are those of
    [_BaseNetwork]: each category holds when both the network address and
    the broadcast address are in it; [is_private] asks both to lie in one
    listed range and neither in an excepted one. *)

Definition digit_val (c : ascii) : option Z :=
  let n := nat_of_ascii c in
  if ((48 <=? n) && (n <=? 57))%nat then Some (Z.of_nat (n - 48)) else None.

Fixpoint parse_digits (l : list ascii) (acc : Z) : option Z :=
  match l with
  | [] => Some acc
  | c :: l' => match digit_val c with Some d => parse_digits l' (acc * 10 + d) | None => None end
  end.

Definition parse_decimal (s : string) : option Z :=
  match list_ascii_of_string s with [] => None | l => parse_digits l 0 end.

(** [_parse_octet] *)
Definition parse_octet (s : string) : option Z :=
  let l := list_ascii_of_string s in
  match parse_decimal s with
  | None => None
  | Some v =>
      if (3 <? List.length l)%nat then None
      else match l with
           | "0"%char :: _ :: _ => None
           | _ => if v <=? 255 then Some v else None
           end
  end.

Definition parse_ipv4_address (s : string) : option Z :=
  match py_split "." s with
  | [a; b; c; d] =>
      match parse_octet a, parse_octet b, parse_octet c, parse_octet d with
      | Some a, Some b, Some c, Some d => Some (ip4 a b c d)
      | _, _, _, _ => None
      end
  | _ => None
  end.

Definition parse_prefixlen (m : string) : option Z :=
  match parse_decimal m with Some p => if p <=? 32 then Some p else None | None => None end.

Definition make_ipv4_network (a : string) (p : option Z) : option net :=
  match parse_ipv4_address a, p with
  | Some base, Some p => let n := mknet base p in if wfb 32 n then Some n else None
  | _, _ => None
  end.

Definition parse_ipv4_network (s : string) : option net :=
  match py_split "/" s with
  | [a] => make_ipv4_network a (Some 32)
  | [a; m] => make_ipv4_network a (parse_prefixlen m)
  | _ => None
  end.

Definition py_ip_network (s : string) : option ip_net :=
  match parse_ipv4_network s with Some n => Some (IPv4Network n) | None => None end.

(** [address in network]: [address & netmask == network_address]. *)
Definition addr_in (w x : Z) (n : net) : bool :=
  Z.land x (netmask_int w (prefixlen n)) =? network_address n.

Definition ip6 (a b c d e f g h : Z) : Z :=
  fold_left (fun acc x => acc * 2 ^ 16 + x) [a; b; c; d; e; f; g; h] 0.

Definition v4_multicast : net := mknet (ip4 224 0 0 0) 4.
Definition v4_reserved : net := mknet (ip4 240 0 0 0) 4.
Definition v4_loopback : net := mknet (ip4 127 0 0 0) 8.
Definition v4_link_local : net := mknet (ip4 169 254 0 0) 16.

Definition v4_private_networks : list net :=
  [mknet (ip4 0 0 0 0) 8; mknet (ip4 10 0 0 0) 8; mknet (ip4 127 0 0 0) 8;
   mknet (ip4 169 254 0 0) 16; mknet (ip4 172 16 0 0) 12; mknet (ip4 192 0 0 0) 24;
   mknet (ip4 192 0 0 170) 31; mknet (ip4 192 0 2 0) 24; mknet (ip4 192 168 0 0) 16;
   mknet (ip4 198 18 0 0) 15; mknet (ip4 198 51 100 0) 24; mknet (ip4 203 0 113 0) 24;
   mknet (ip4 240 0 0 0) 4; mknet (ip4 255 255 255 255) 32].

Definition v4_private_networks_exceptions : list net :=
  [mknet (ip4 192 0 0 9) 32; mknet (ip4 192 0 0 10) 32].

Definition v6_multicast : net := mknet (ip6 0xff00 0 0 0 0 0 0 0) 8.
Definition v6_link_local : net := mknet (ip6 0xfe80 0 0 0 0 0 0 0) 10.

Definition v6_private_networks : list net :=
  [mknet 1 128; mknet 0 128; mknet (ip6 0 0 0 0 0 0xffff 0 0) 96;
   mknet (ip6 0x64 0xff9b 1 0 0 0 0 0) 48; mknet (ip6 0x100 0 0 0 0 0 0 0) 64;
   mknet (ip6 0x2001 0 0 0 0 0 0 0) 23; mknet (ip6 0x2001 0xdb8 0 0 0 0 0 0) 32;
   mknet (ip6 0x2002 0 0 0 0 0 0 0) 16; mknet (ip6 0xfc00 0 0 0 0 0 0 0) 7;
   mknet (ip6 0xfe80 0 0 0 0 0 0 0) 10].

Definition v6_private_networks_exceptions : list net :=
  [mknet (ip6 0x2001 1 0 0 0 0 0 1) 128; mknet (ip6 0x2001 1 0 0 0 0 0 2) 128;
   mknet (ip6 0x2001 3 0 0 0 0 0 0) 32; mknet (ip6 0x2001 4 0x112 0 0 0 0 0) 48;
   mknet (ip6 0x2001 0x20 0 0 0 0 0 0) 28; mknet (ip6 0x2001 0x30 0 0 0 0 0 0) 28].

Definition v6_reserved_networks : list net :=
  [mknet 0 8; mknet (ip6 0x100 0 0 0 0 0 0 0) 8; mknet (ip6 0x200 0 0 0 0 0 0 0) 7;
   mknet (ip6 0x400 0 0 0 0 0 0 0) 6; mknet (ip6 0x800 0 0 0 0 0 0 0) 5;
   mknet (ip6 0x1000 0 0 0 0 0 0 0) 4; mknet (ip6 0x4000 0 0 0 0 0 0 0) 3;
   mknet (ip6 0x6000 0 0 0 0 0 0 0) 3; mknet (ip6 0x8000 0 0 0 0 0 0 0) 3;
   mknet (ip6 0xa000 0 0 0 0 0 0 0) 3; mknet (ip6 0xc000 0 0 0 0 0 0 0) 3;
   mknet (ip6 0xe000 0 0 0 0 0 0 0) 4; mknet (ip6 0xf000 0 0 0 0 0 0 0) 5;
   mknet (ip6 0xf800 0 0 0 0 0 0 0) 6; mknet (ip6 0xfe00 0 0 0 0 0 0 0) 9].

(** Both ends of [n] satisfy the address predicate [P]. *)
Definition both_ends (w : Z) (P : Z -> bool) (n : net) : bool :=
  P (network_address n) && P (broadcast_address w n).

(** [_BaseNetwork.is_private] *)
Definition net_is_private (w : Z) (priv exc : list net) (n : net) : bool :=
  existsb (fun p => both_ends w (fun x => addr_in w x p) n) priv
  && forallb (fun e => negb (addr_in w (network_address n) e)
                       && negb (addr_in w (broadcast_address w n) e)) exc.

(** [IPv4Address.is_private] *)
Definition ipv4_address_is_private (x : Z) : bool :=
  existsb (addr_in 32 x) v4_private_networks
  && forallb (fun e => negb (addr_in 32 x e)) v4_private_networks_exceptions.

Definition py_is_multicast (a : ip_net) : bool :=
  match a with
  | IPv4Network n => both_ends 32 (fun x => addr_in 32 x v4_multicast) n
  | IPv6Network n => both_ends 128 (fun x => addr_in 128 x v6_multicast) n
  end.

Definition py_is_private (a : ip_net) : bool :=
  match a with
  | IPv4Network n => net_is_private 32 v4_private_networks v4_private_networks_exceptions n
  | IPv6Network n => net_is_private 128 v6_private_networks v6_private_networks_exceptions n
  end.

Definition py_is_unspecified (a : ip_net) : bool :=
  both_ends (ip_width a) (fun x => x =? 0) (ip_block a).

Definition py_is_reserved (a : ip_net) : bool :=
  match a with
  | IPv4Network n => both_ends 32 (fun x => addr_in 32 x v4_reserved) n
  | IPv6Network n => both_ends 128 (fun x => existsb (addr_in 128 x) v6_reserved_networks) n
  end.

Definition py_is_loopback (a : ip_net) : bool :=
  match a with
  | IPv4Network n => both_ends 32 (fun x => addr_in 32 x v4_loopback) n
  | IPv6Network n => both_ends 128 (fun x => x =? 1) n
  end.

Definition py_is_link_local (a : ip_net) : bool :=
  match a with
  | IPv4Network n => both_ends 32 (fun x => addr_in 32 x v4_link_local) n
  | IPv6Network n => both_ends 128 (fun x => addr_in 128 x v6_link_local) n
  end.

Definition python_ipaddress : ipaddress_lib := {|
  ip_network := py_ip_network;
  is_multicast := py_is_multicast;
  is_private := py_is_private;
  is_unspecified := py_is_unspecified;
  is_reserved := py_is_reserved;
  is_loopback := py_is_loopback;
  is_link_local := py_is_link_local
|}.

(** Concrete inputs: a dump with its header line and one record. *)
Definition dump_of (field0 field1 field2 : string) : list (list string) :=
  [["Updated on 2024-01-01"%string]; [field0; field1; field2]].

Definition no_resolver (d : option string) : list string := [].

(** ** Predicates used in the statements *)

(** The accumulator [merged] of [merge], in list order, once the first [n]
    networks of [sorted(addrs)] have gone through [add_merged]. *)
Definition accumulator (w : Z) (addrs : list net) (n : nat) : list net :=
  rev (fold_left (add_merged w) (firstn n (sort w addrs)) []).

(** [a] and [b] are, in this order, the two halves of one valid network. *)
Definition combinable (w : Z) (a b : net) : Prop :=
  exists P, wf w P /\ subnets w P = [a; b].

(** Arithmetic form of the same relation: equal prefix lengths, [b] starts
    where [a] ends, and [a] is aligned to the parent block. *)
Definition siblings (w : Z) (a b : net) : Prop :=
  prefixlen a = prefixlen b /\ 0 < prefixlen b
  /\ network_address b = network_address a + 2 ^ (w - prefixlen b)
  /\ network_address a mod 2 ^ (w - prefixlen b + 1) = 0.

(** [a] ends strictly before the non-empty [b] starts. *)
Definition before (w : Z) (a b : net) : Prop :=
  broadcast_address w a < network_address b
  /\ network_address b <= broadcast_address w b.

(** What successive entries of the accumulator satisfy: disjoint, in
    ascending order, and not two halves of one block. *)
Definition merged_ok (w : Z) (a b : net) : Prop := before w a b /\ ~ siblings w a b.

(** Successive elements of a list are related by [R]. *)
Fixpoint chain {A : Type} (R : A -> A -> Prop) (l : list A) : Prop :=
  match l with
  | a :: ((b :: _) as t) => R a b /\ chain R t
  | _ => True
  end.

(** None of the six predicates of [add_addr] holds for [a]. *)
Definition accepted (lib : ipaddress_lib) (a : ip_net) : Prop :=
  is_multicast lib a = false /\ is_private lib a = false /\ is_unspecified lib a = false
  /\ is_reserved lib a = false /\ is_loopback lib a = false /\ is_link_local lib a = false.

(** The parser returns valid networks of the family it tags. *)
Definition lib_wf (lib : ipaddress_lib) : Prop :=
  forall s a, ip_network lib s = Some a -> wf (ip_width a) (ip_block a).

(** Every network of [addrs] passed the screening and is valid. *)
Definition good_state (lib : ipaddress_lib) (st : run_state) : Prop :=
  Forall (fun a => accepted lib a /\ wf (ip_width a) (ip_block a)) (addrs st).

(** The events of one iteration of [resolve_dns] that ends in [EAI_AGAIN],
    and of [k] such iterations. *)
Definition retry_round (d : option string) : list dns_event :=
  [Lookup d; LogCantResolve d EAI_AGAIN; LogRetry d; Sleep 500].

Definition retry_trace (d : option string) (k : nat) : list dns_event :=
  List.concat (repeat (retry_round d) k).

(** A sample input of [merge]: two halves of 8.8.8.0/24, then 8.8.9.0/24,
    and a host. *)
Definition sample_nets : list net :=
  [mknet (ip4 8 8 8 128) 25; mknet (ip4 8 8 9 0) 24; mknet (ip4 8 8 8 0) 25;
   mknet (ip4 1 2 3 4) 32].

(** The first character of [l], if any, fails [f]. *)
Definition head_not (f : ascii -> bool) (l : list ascii) : Prop :=
  match l with [] => True | c :: _ => f c = false end.

(** Characters of a plain lower-case host name: a-z, 0-9, [.] and [-]. *)
Definition is_host_char (c : ascii) : bool :=
  let n := nat_of_ascii c in
  ((97 <=? n) && (n <=? 122))%nat || ((48 <=? n) && (n <=? 57))%nat
  || (n =? 45)%nat || (n =? 46)%nat.

(** ** Arithmetic of masks and blocks *)

Section NetFacts.

Variable w : Z.
Hypothesis w_pos : 0 < w.

Lemma testbit_below_pow : forall a i, 0 <= a < 2 ^ w -> w <= i -> Z.testbit a i = false.
Proof.
  intros a i Ha Hi. destruct (Z.eq_dec a 0) as [->|Hne]; [apply Z.bits_0|].
  apply Z.bits_above_log2; [lia|].
  assert (Z.log2 a < w) by (apply Z.log2_lt_pow2; lia). lia.
Qed.

Lemma shiftr_all_ones : forall p, 0 <= p <= w -> Z.shiftr (Z.ones w) p = Z.ones (w - p).
Proof.
  intros p Hp. apply Z.bits_inj'; intros i Hi.
  rewrite Z.shiftr_spec, !Z.testbit_ones_nonneg by lia.
  destruct (Z.ltb_spec (i + p) w), (Z.ltb_spec i (w - p)); try reflexivity; lia.
Qed.

Lemma netmask_ones : forall p, 0 <= p <= w ->
  netmask_int w p = Z.lxor (Z.ones w) (Z.ones (w - p)).
Proof.
  intros p Hp. unfold netmask_int, ALL_ONES. now rewrite shiftr_all_ones.
Qed.

Lemma hostmask_ones : forall p, 0 <= p <= w -> hostmask_int w p = Z.ones (w - p).
Proof.
  intros p Hp. unfold hostmask_int. rewrite netmask_ones by exact Hp. unfold ALL_ONES.
  rewrite Z.lxor_comm, <- Z.lxor_assoc, Z.lxor_nilpotent.
  apply Z.lxor_0_l.
Qed.

Lemma netmask_value : forall p, 0 <= p <= w -> netmask_int w p = 2 ^ w - 2 ^ (w - p).
Proof.
  intros p Hp.
  assert (Hl : Z.land (netmask_int w p) (Z.ones (w - p)) = 0).
  { rewrite netmask_ones by exact Hp. apply Z.bits_inj'; intros i Hi.
    rewrite Z.land_spec, Z.lxor_spec, !Z.testbit_ones_nonneg, Z.bits_0 by lia.
    destruct (Z.ltb_spec i w), (Z.ltb_spec i (w - p)); try reflexivity; lia. }
  apply Z.add_nocarry_lxor in Hl.
  rewrite netmask_ones in Hl at 2 by exact Hp.
  rewrite Z.lxor_assoc, Z.lxor_nilpotent, Z.lxor_0_r, !Z.ones_equiv in Hl. lia.
Qed.

Lemma pow2_pos : forall k, 0 <= k -> 0 < 2 ^ k.
Proof. intros k Hk. apply Z.pow_pos_nonneg; lia. Qed.

Lemma netmask_inj : forall p q, 0 <= p <= w -> 0 <= q <= w ->
  netmask_int w p = netmask_int w q -> p = q.
Proof.
  intros p q Hp Hq H. rewrite !netmask_value in H by assumption.
  assert (2 ^ (w - p) = 2 ^ (w - q)) as H' by lia.
  apply Z.pow_inj_r in H'; lia.
Qed.

Lemma netmask_lt : forall p q, 0 <= p <= w -> 0 <= q <= w ->
  (netmask_int w p < netmask_int w q <-> p < q).
Proof.
  intros p q Hp Hq. rewrite !netmask_value by assumption.
  pose proof (Z.pow_lt_mono_r_iff 2 (w - q) (w - p)) as Hm. lia.
Qed.

(** Alignment: a multiple of [s] strictly below another one is at least [s]
    below it. *)
Lemma aligned_gap : forall s x y, 0 < s -> x mod s = 0 -> y mod s = 0 -> x < y -> x + s <= y.
Proof.
  intros s x y Hs Hx Hy Hlt.
  apply Z.div_exact in Hx; [|lia]. apply Z.div_exact in Hy; [|lia].
  rewrite Hx, Hy in *.
  assert (x / s < y / s) by (apply (Z.mul_lt_mono_pos_l s); lia).
  assert (s * (x / s + 1) <= s * (y / s)) by (apply Z.mul_le_mono_nonneg_l; lia).
  lia.
Qed.

Lemma mod_pow_weaken : forall k1 k2 x, 0 <= k1 <= k2 -> x mod 2 ^ k2 = 0 -> x mod 2 ^ k1 = 0.
Proof.
  intros k1 k2 x Hk H.
  pose proof (pow2_pos k1 ltac:(lia)). pose proof (pow2_pos k2 ltac:(lia)).
  apply Z.mod_divide in H; [|lia]. apply Z.mod_divide; [lia|].
  eapply Z.divide_trans; [|exact H].
  exists (2 ^ (k2 - k1)). rewrite <- Z.pow_add_r by lia. f_equal; lia.
Qed.

Lemma wf_iff : forall n, wf w n <->
  0 <= prefixlen n <= w /\ 0 <= network_address n < 2 ^ w
  /\ network_address n mod 2 ^ (w - prefixlen n) = 0.
Proof.
  intros n. unfold wf, wfb.
  rewrite !andb_true_iff, !Z.leb_le, Z.ltb_lt, Z.eqb_eq. tauto.
Qed.

Lemma broadcast_value : forall n, wf w n ->
  broadcast_address w n = network_address n + 2 ^ (w - prefixlen n) - 1.
Proof.
  intros n Hn. apply wf_iff in Hn. destruct Hn as (Hp & Hb & Hal).
  unfold broadcast_address. rewrite hostmask_ones by exact Hp.
  assert (Hl : Z.land (network_address n) (Z.ones (w - prefixlen n)) = 0)
    by (rewrite Z.land_ones by lia; exact Hal).
  rewrite <- Z.lxor_lor, <- Z.add_nocarry_lxor by exact Hl.
  rewrite Z.ones_equiv. lia.
Qed.

Lemma block_fits : forall n, wf w n ->
  0 <= network_address n /\ network_address n + 2 ^ (w - prefixlen n) <= 2 ^ w.
Proof.
  intros n Hn. apply wf_iff in Hn. destruct Hn as (Hp & Hb & Hal). split; [lia|].
  destruct (Z.eq_dec (network_address n + 2 ^ (w - prefixlen n)) (2 ^ w)); [lia|].
  apply aligned_gap; [apply pow2_pos; lia|exact Hal| |lia].
  apply (mod_pow_weaken (w - prefixlen n) w); [lia|]. apply Z.mod_same.
  pose proof (pow2_pos w); lia.
Qed.

Lemma supernet_value : forall n, wf w n -> 0 < prefixlen n ->
  supernet w n =
  mknet (network_address n / 2 ^ (w - prefixlen n + 1) * 2 ^ (w - prefixlen n + 1))
        (prefixlen n - 1).
Proof.
  intros [b p] Hn Hp. apply wf_iff in Hn. simpl in *. destruct Hn as (Hpw & Hb & Hal).
  unfold supernet; cbn [network_address prefixlen].
  replace (p =? 0) with false by (symmetry; apply Z.eqb_neq; lia).
  f_equal.
  rewrite <- Z.shiftr_div_pow2, <- Z.shiftl_mul_pow2, <- Z.ldiff_ones_r by lia.
  apply Z.bits_inj'; intros i Hi.
  rewrite Z.land_spec, Z.ldiff_spec, Z.shiftl_spec, netmask_ones by lia.
  rewrite (Z.testbit_ones_nonneg (w - p + 1)) by lia.
  destruct (Z.ltb_spec i (w - p + 1)).
  - destruct (Z.eq_dec i 0) as [->|Hi0].
    + rewrite (Z.testbit_neg_r _ (0 - 1)) by lia. simpl; now rewrite !andb_false_r.
    + rewrite Z.lxor_spec, !Z.testbit_ones_nonneg by lia.
      destruct (Z.ltb_spec (i - 1) w), (Z.ltb_spec (i - 1) (w - p)); try lia;
        simpl; now rewrite andb_false_r.
  - destruct (Z.ltb_spec i w).
    + rewrite Z.lxor_spec, !Z.testbit_ones_nonneg by lia.
      destruct (Z.ltb_spec (i - 1) w), (Z.ltb_spec (i - 1) (w - p)); try lia;
        simpl; now rewrite andb_true_r.
    + rewrite testbit_below_pow by lia. reflexivity.
Qed.

Lemma supernet_wf : forall n, wf w n -> wf w (supernet w n).
Proof.
  intros n Hn. destruct (Z.eq_dec (prefixlen n) 0) as [H0|H0].
  - unfold supernet. rewrite H0. exact Hn.
  - rewrite supernet_value by (try exact Hn; apply wf_iff in Hn; lia).
    apply wf_iff in Hn. destruct Hn as (Hp & Hb & Hal). apply wf_iff; simpl.
    set (d := 2 ^ (w - prefixlen n + 1)).
    assert (0 < d) by (apply pow2_pos; lia).
    assert (network_address n / d * d <= network_address n).
    { rewrite Z.mul_comm. apply Z.mul_div_le. lia. }
    assert (0 <= network_address n / d) by (apply Z.div_pos; lia).
    split; [lia|]. split; [nia|].
    replace (w - (prefixlen n - 1)) with (w - prefixlen n + 1) by lia.
    apply Z.mod_mul. lia.
Qed.

Lemma subnets_value : forall n, wf w n -> prefixlen n < w ->
  subnets w n =
  [mknet (network_address n) (prefixlen n + 1);
   mknet (network_address n + 2 ^ (w - prefixlen n - 1)) (prefixlen n + 1)].
Proof.
  intros n Hn Hpw. pose proof Hn as Hn'. apply wf_iff in Hn'. destruct Hn' as (Hp & Hb & Hal).
  unfold subnets. replace (prefixlen n =? w) with false by (symmetry; apply Z.eqb_neq; lia).
  rewrite broadcast_value, hostmask_ones by assumption.
  set (s := 2 ^ (w - prefixlen n - 1)).
  assert (Hs : 2 ^ (w - prefixlen n) = s * 2).
  { unfold s. rewrite <- (Z.pow_1_r 2) at 3. rewrite <- Z.pow_add_r by lia. f_equal; lia. }
  assert (0 < s) by (apply pow2_pos; lia).
  assert (Hstep : Z.shiftr (Z.ones (w - prefixlen n) + 1) 1 = s).
  { rewrite Z.ones_equiv, Z.shiftr_div_pow2 by lia. rewrite Hs, Z.pow_1_r.
    replace (Z.pred (s * 2) + 1) with (s * 2) by lia. apply Z.div_mul. lia. }
  rewrite Hstep. unfold py_range.
  replace ((network_address n + 2 ^ (w - prefixlen n) - 1 + 1 - network_address n + s - 1) / s)
    with 2.
  - change (Z.to_nat 2) with 2%nat. cbn [seq map Z.of_nat].
    f_equal; [f_equal; lia|]. f_equal. f_equal. lia.
  - apply (Z.div_unique _ _ _ (s - 1)); lia.
Qed.

Lemma net_eqb_iff : forall a b, 0 <= prefixlen a <= w -> 0 <= prefixlen b <= w ->
  (net_eqb w a b = true <-> a = b).
Proof.
  intros [ba pa] [bb pb] Ha Hb; simpl in *. unfold net_eqb; simpl.
  rewrite andb_true_iff, !Z.eqb_eq. split.
  - intros [-> H]. apply netmask_inj in H; [now subst|lia|lia].
  - intros H. injection H as -> ->. tauto.
Qed.

Lemma nets_eqb_refl : forall l, nets_eqb w l l = true.
Proof.
  induction l as [|a l IH]; simpl; [reflexivity|].
  unfold net_eqb. now rewrite !Z.eqb_refl, IH.
Qed.

End NetFacts.

(** ** Facts about blocks: siblings, nesting, the order of [sorted] *)

Section BlockFacts.

Variable w : Z.
Hypothesis w_pos : 0 < w.

Lemma wf_prefixlen : forall n, wf w n -> 0 <= prefixlen n <= w.
Proof. intros n Hn. apply wf_iff in Hn. tauto. Qed.

Lemma wf_base_le_broadcast : forall n, wf w n -> network_address n <= broadcast_address w n.
Proof.
  intros n Hn. rewrite broadcast_value by assumption.
  pose proof (pow2_pos (w - prefixlen n)) as H.
  apply wf_prefixlen in Hn. specialize (H ltac:(lia)). lia.
Qed.

Lemma mod0_add : forall s x y, 0 < s -> x mod s = 0 -> y mod s = 0 -> (x + y) mod s = 0.
Proof.
  intros s x y Hs Hx Hy. apply Z.mod_divide in Hx; [|lia]. apply Z.mod_divide in Hy; [|lia].
  apply Z.mod_divide; [lia|]. now apply Z.divide_add_r.
Qed.

Lemma pow2_double : forall k, 0 <= k -> 2 ^ (k + 1) = 2 * 2 ^ k.
Proof. intros k Hk. rewrite Z.pow_add_r, Z.pow_1_r by lia. lia. Qed.

(** The parent of the upper half [b] of an aligned pair starts at [a]. *)
Lemma siblings_supernet : forall a b, wf w b -> siblings w a b ->
  supernet w b = mknet (network_address a) (prefixlen a - 1).
Proof.
  intros a b Hb (Hpl & Hp & Hbase & Hal).
  rewrite supernet_value by assumption. rewrite Hpl. f_equal.
  pose proof (wf_prefixlen b Hb).
  set (k := w - prefixlen b) in *.
  assert (0 < 2 ^ k) by (apply pow2_pos; lia).
  rewrite pow2_double in * by lia.
  apply Z.div_exact in Hal; [|lia].
  rewrite Hbase, Hal.
  rewrite <- (Z.div_unique (2 * 2 ^ k * (network_address a / (2 * 2 ^ k)) + 2 ^ k)
                (2 * 2 ^ k) (network_address a / (2 * 2 ^ k)) (2 ^ k)) by lia.
  lia.
Qed.

(** The code's collapse test [tuple(addr.supernet().subnets()) == (prev, addr)]
    holds exactly for aligned sibling pairs. *)
Lemma siblings_check : forall a b, wf w a -> wf w b ->
  (nets_eqb w (subnets w (supernet w b)) [a; b] = true <-> siblings w a b).
Proof.
  intros a b Ha Hb. pose proof (wf_prefixlen a Ha) as Hpa. pose proof (wf_prefixlen b Hb) as Hpb.
  pose proof (supernet_wf w w_pos b Hb) as HS.
  split.
  - intros H. destruct (Z.eq_dec (prefixlen b) 0) as [H0|H0].
    + assert (supernet w b = b) as E by (unfold supernet; now rewrite H0).
      rewrite E, subnets_value in H by (auto; lia). cbn [nets_eqb] in H.
      rewrite !andb_true_iff in H. destruct H as (_ & H & _).
      apply net_eqb_iff in H; [|cbn; lia ..].
      rewrite <- H in H0. cbn in H0. lia.
    + rewrite supernet_value in HS, H by (auto; lia).
      rewrite subnets_value in H by (auto; cbn; lia). cbn [nets_eqb network_address prefixlen] in H.
      rewrite !andb_true_iff in H. destruct H as (H1 & H2 & _).
      apply net_eqb_iff in H1; [|cbn; lia ..]. apply net_eqb_iff in H2; [|cbn; lia ..].
      destruct a as [ba pa], b as [bb pb]. cbn in *.
      injection H1 as Hba Hpa1. injection H2 as Hbb Hpb1.
      replace (w - (pb - 1) - 1) with (w - pb) in Hbb by lia.
      unfold siblings; cbn. repeat split; try lia.
      rewrite <- Hba. apply Z.mod_mul. pose proof (pow2_pos (w - pb + 1)). lia.
  - intros Hs. pose proof (siblings_supernet a b Hb Hs) as E.
    destruct Hs as (Hpl & Hp & Hbase & Hal).
    rewrite E in HS |- *. rewrite subnets_value by (auto; cbn; lia). cbn [network_address prefixlen].
    replace (prefixlen a - 1 + 1) with (prefixlen a) by lia.
    replace (w - (prefixlen a - 1) - 1) with (w - prefixlen b) by lia.
    rewrite <- Hbase.
    destruct a as [ba pa], b as [bb pb]. cbn in *. subst. unfold net_eqb. now rewrite !Z.eqb_refl.
Qed.

(** Two halves of a valid network are aligned siblings. *)
Lemma combinable_siblings : forall a b, combinable w a b -> siblings w a b.
Proof.
  intros a b (P & HP & Hs). pose proof HP as HP'. apply wf_iff in HP'.
  destruct HP' as (Hp & Hb & Hal).
  destruct (Z.eq_dec (prefixlen P) w) as [E|E].
  - unfold subnets in Hs. rewrite E, Z.eqb_refl in Hs. discriminate.
  - rewrite subnets_value in Hs by (auto; lia). injection Hs as Ha Hb'.
    subst a b. unfold siblings; cbn. repeat split; try lia.
    + f_equal. f_equal. lia.
    + replace (w - (prefixlen P + 1) + 1) with (w - prefixlen P) by lia. exact Hal.
Qed.

Lemma net_lt_false_iff : forall a b, 0 <= prefixlen a <= w -> 0 <= prefixlen b <= w ->
  (net_lt w b a = false <->
   network_address a < network_address b
   \/ (network_address a = network_address b /\ prefixlen a <= prefixlen b)).
Proof.
  intros a b Ha Hb. unfold net_lt.
  destruct (Z.eqb_spec (network_address b) (network_address a)) as [E|E]; cbn [negb].
  - destruct (Z.eqb_spec (netmask_int w (prefixlen b)) (netmask_int w (prefixlen a))) as [F|F];
      cbn [negb].
    + apply netmask_inj in F; [|lia ..]. split; intros; [right; lia|reflexivity].
    + rewrite Z.ltb_ge. pose proof (netmask_lt w w_pos (prefixlen a) (prefixlen b) Ha Hb).
      assert (prefixlen a <> prefixlen b) by (intro; apply F; f_equal; lia).
      assert (netmask_int w (prefixlen a) <= netmask_int w (prefixlen b) <->
              prefixlen a <= prefixlen b).
      { pose proof (netmask_lt w w_pos (prefixlen b) (prefixlen a) Hb Ha). lia. }
      lia.
  - rewrite Z.ltb_ge. lia.
Qed.

Lemma net_lt_irrefl : forall a, net_lt w a a = false.
Proof. intros a. unfold net_lt. now rewrite !Z.eqb_refl. Qed.

Lemma net_lt_asym : forall a b, net_lt w a b = true -> net_lt w b a = false.
Proof.
  intros a b. unfold net_lt.
  destruct (Z.eqb_spec (network_address a) (network_address b)),
           (Z.eqb_spec (network_address b) (network_address a)); cbn [negb]; try lia.
  destruct (Z.eqb_spec (netmask_int w (prefixlen a)) (netmask_int w (prefixlen b))),
             (Z.eqb_spec (netmask_int w (prefixlen b)) (netmask_int w (prefixlen a)));
      cbn [negb]; lia.
Qed.

Lemma subnet_of_iff : forall a b, wf w a -> wf w b ->
  (subnet_of w a b = true <->
   network_address b <= network_address a
   /\ network_address a + 2 ^ (w - prefixlen a) <= network_address b + 2 ^ (w - prefixlen b)).
Proof.
  intros a b Ha Hb. unfold subnet_of.
  rewrite !broadcast_value by assumption. rewrite andb_true_iff, !Z.leb_le. lia.
Qed.

(** Two aligned blocks met in the order of [sorted] are nested or disjoint. *)
Lemma nest : forall a b, wf w a -> wf w b -> net_lt w b a = false ->
  subnet_of w b a = true \/ broadcast_address w a < network_address b.
Proof.
  intros a b Ha Hb Hlt.
  pose proof (wf_prefixlen a Ha). pose proof (wf_prefixlen b Hb).
  apply net_lt_false_iff in Hlt; [|lia ..].
  destruct (Z_lt_le_dec (broadcast_address w a) (network_address b)) as [D|D]; [now right|left].
  rewrite broadcast_value in D by assumption.
  apply subnet_of_iff; [assumption|assumption|].
  pose proof Ha as Ha'. apply wf_iff in Ha'. destruct Ha' as (_ & _ & Hala).
  pose proof Hb as Hb'. apply wf_iff in Hb'. destruct Hb' as (_ & _ & Halb).
  assert (0 < 2 ^ (w - prefixlen a)) by (apply pow2_pos; lia).
  assert (0 < 2 ^ (w - prefixlen b)) by (apply pow2_pos; lia).
  destruct (Z_le_gt_dec (prefixlen a) (prefixlen b)) as [L|L].
  - split; [lia|].
    apply aligned_gap; [lia|exact Halb| |lia].
    apply mod0_add; [lia| |].
    + apply (mod_pow_weaken (w - prefixlen b) (w - prefixlen a)); [lia|exact Hala].
    + apply (mod_pow_weaken (w - prefixlen b) (w - prefixlen a)); [lia|]. apply Z.mod_same. lia.
  - exfalso. assert (network_address a < network_address b) by lia.
    assert (network_address a + 2 ^ (w - prefixlen a) <= network_address b); [|lia].
    apply aligned_gap; [lia|exact Hala| |lia].
    apply (mod_pow_weaken (w - prefixlen a) (w - prefixlen b)); [lia|exact Halb].
Qed.

(** A network contained in [prev] does not come before it in [sorted]. *)
Lemma subnet_of_not_lt : forall a b, wf w a -> wf w b -> subnet_of w a b = true ->
  net_lt w a b = false.
Proof.
  intros a b Ha Hb H. pose proof (wf_prefixlen a Ha). pose proof (wf_prefixlen b Hb).
  apply subnet_of_iff in H; [|assumption|assumption].
  apply net_lt_false_iff; [lia|lia|].
  destruct (Z.eq_dec (network_address a) (network_address b)) as [E|E]; [right|left; lia].
  split; [lia|].
  assert (2 ^ (w - prefixlen a) <= 2 ^ (w - prefixlen b)) as P by lia.
  apply Z.pow_le_mono_r_iff in P; lia.
Qed.

Lemma lex_trans : forall a b c, wf w a -> wf w b -> wf w c ->
  net_lt w b a = false -> net_lt w c b = false -> net_lt w c a = false.
Proof.
  intros a b c Ha Hb Hc H1 H2.
  pose proof (wf_prefixlen a Ha). pose proof (wf_prefixlen b Hb). pose proof (wf_prefixlen c Hc).
  apply net_lt_false_iff in H1, H2; try lia. apply net_lt_false_iff; lia.
Qed.

End BlockFacts.

(** ** Lists: chains, reversal, insertion sort *)

Section Chains.

Context {A : Type}.

Lemma chain_tail : forall (R : A -> A -> Prop) a l, chain R (a :: l) -> chain R l.
Proof. intros R a [|b l] H; [exact I|exact (proj2 H)]. Qed.

Lemma chain_app_one : forall (R : A -> A -> Prop) l y x,
  chain R (l ++ [y]) -> R y x -> chain R (l ++ [y; x]).
Proof.
  intros R l y x. induction l as [|a l IH]; intros H Hyx; [cbn; tauto|].
  destruct l as [|b l]; cbn in *; tauto.
Qed.

Lemma chain_rev_flip : forall (R : A -> A -> Prop) s,
  chain (fun x y => R y x) s -> chain R (rev s).
Proof.
  intros R s. induction s as [|x s IH]; intros H; [exact I|].
  destruct s as [|y s]; [exact I|].
  destruct H as [Hyx H]. specialize (IH H).
  change (rev (x :: y :: s)) with ((rev s ++ [y]) ++ [x]).
  rewrite <- app_assoc. apply chain_app_one; [exact IH|exact Hyx].
Qed.

Lemma chain_adjacent : forall (R : A -> A -> Prop) l1 a b l3,
  chain R (l1 ++ a :: b :: l3) -> R a b.
Proof.
  intros R l1 a b l3. induction l1 as [|c l1 IH]; intros H; [exact (proj1 H)|].
  apply IH. exact (chain_tail R c _ H).
Qed.

Lemma chain_firstn : forall (R : A -> A -> Prop) n l, chain R l -> chain R (firstn n l).
Proof.
  intros R n. induction n as [|n IH]; intros l H; [exact I|].
  destruct l as [|a l]; [exact I|]. cbn [firstn].
  specialize (IH l (chain_tail R a l H)).
  destruct n as [|n]; [exact I|]. destruct l as [|b l]; [exact I|].
  cbn in IH |- *. split; [exact (proj1 H)|exact IH].
Qed.

End Chains.

Section MergeInvariant.

Variable w : Z.
Hypothesis w_pos : 0 < w.

Lemma before_trans : forall a b c, before w a b -> before w b c -> before w a c.
Proof. unfold before. intros a b c H1 H2. lia. Qed.

Lemma chain_before_pairwise : forall l1 a l2 b l3,
  chain (merged_ok w) (l1 ++ a :: l2 ++ b :: l3) -> before w a b.
Proof.
  intros l1 a l2 b l3. induction l1 as [|c l1 IH]; intros H.
  - revert a H. induction l2 as [|c l2 IH2]; intros a H; [exact (proj1 (proj1 H))|].
    destruct H as [[Hac _] H]. apply before_trans with c; [exact Hac|]. now apply IH2.
  - apply IH. exact (chain_tail _ c _ H).
Qed.

Lemma insert_perm : forall a l, Permutation (insert w a l) (a :: l).
Proof.
  intros a l. induction l as [|b l IH]; cbn; [reflexivity|].
  destruct (net_lt w b a); [|reflexivity].
  rewrite IH. apply perm_swap.
Qed.

Lemma sort_perm : forall l, Permutation (sort w l) l.
Proof.
  induction l as [|a l IH]; cbn; [reflexivity|].
  rewrite insert_perm. now apply perm_skip.
Qed.

Lemma insert_chain : forall a l,
  chain (fun x y => net_lt w y x = false) l ->
  chain (fun x y => net_lt w y x = false) (insert w a l).
Proof.
  intros a l. induction l as [|b l IH]; intros H; [exact I|].
  cbn [insert]. destruct (net_lt w b a) eqn:Hba.
  - specialize (IH (chain_tail _ b l H)).
    destruct l as [|c l]; cbn [insert] in *.
    + split; [now apply net_lt_asym|exact I].
    + destruct (net_lt w c a) eqn:Hca.
      * split; [exact (proj1 H)|exact IH].
      * split; [now apply net_lt_asym|exact IH].
  - split; [exact Hba|exact H].
Qed.

Lemma sort_chain : forall l, chain (fun x y => net_lt w y x = false) (sort w l).
Proof. induction l as [|a l IH]; [exact I|]. cbn [sort]. now apply insert_chain. Qed.

Lemma sort_wf : forall l, Forall (wf w) l -> Forall (wf w) (sort w l).
Proof.
  intros l H. rewrite Forall_forall in *. intros x Hx.
  apply H. eapply Permutation_in; [apply sort_perm|exact Hx].
Qed.

(** One call of [add_merged] keeps the accumulator sorted, disjoint and free
    of sibling pairs, and leaves on top a block not after [addr]. *)
Lemma add_merged_inv : forall s addr,
  Forall (wf w) s -> chain (fun x y => merged_ok w y x) s -> wf w addr ->
  (forall prev rest, s = prev :: rest -> net_lt w addr prev = false) ->
  Forall (wf w) (add_merged w s addr)
  /\ chain (fun x y => merged_ok w y x) (add_merged w s addr)
  /\ (forall top rest, add_merged w s addr = top :: rest -> net_lt w addr top = false).
Proof.
  induction s as [|prev rest IH]; intros addr Hs Hc Ha Hlt.
  - cbn. split; [now constructor|]. split; [exact I|].
    intros top rest E. injection E as <- _. apply net_lt_irrefl.
  - cbn [add_merged]. inversion Hs as [|? ? Hprev Hrest]; subst.
    specialize (Hlt prev rest eq_refl).
    destruct (subnet_of w addr prev) eqn:Hsub.
    + split; [exact Hs|]. split; [exact Hc|].
      intros top rest' E. injection E as <- _. exact Hlt.
    + destruct (nest w w_pos prev addr Hprev Ha Hlt) as [C|D]; [congruence|].
      destruct (nets_eqb w (subnets w (supernet w addr)) [prev; addr]) eqn:Heq; cbn [negb].
      * apply siblings_check in Heq; [|exact w_pos|exact Hprev|exact Ha].
        pose proof (siblings_supernet w w_pos prev addr Ha Heq) as E.
        assert (HS : wf w (supernet w addr)) by (apply supernet_wf; assumption).
        pose proof (wf_prefixlen w prev Hprev). pose proof (wf_prefixlen w addr Ha).
        destruct (IH (supernet w addr) Hrest (chain_tail _ prev rest Hc) HS) as (H1 & H2 & H3).
        { intros y rest' ->. destruct Hc as [[[Hb _] _] _].
          inversion Hrest as [|? ? Hy _]; subst.
          pose proof (wf_base_le_broadcast w w_pos y Hy). pose proof (wf_prefixlen w y Hy).
          pose proof Heq as (Hpl0 & Hp0 & _).
          rewrite E. apply net_lt_false_iff; cbn; lia. }
        split; [exact H1|]. split; [exact H2|].
        intros top rest' Etop. specialize (H3 top rest' Etop).
        assert (Htop : wf w top).
        { rewrite Forall_forall in H1. apply H1. rewrite Etop. now left. }
        apply lex_trans with (supernet w addr); try assumption.
        destruct Heq as (Hpl & Hp & Hbase & _).
        pose proof (pow2_pos (w - prefixlen addr)).
        rewrite E. apply net_lt_false_iff; cbn; lia.
      * split; [now constructor|]. split.
        -- split; [|exact Hc]. split.
           ++ split; [exact D|]. now apply wf_base_le_broadcast.
           ++ intros Hsib. apply siblings_check in Hsib; [congruence|assumption..].
        -- intros top rest' E. injection E as <- _. apply net_lt_irrefl.
Qed.

Lemma fold_add_merged_inv : forall L s,
  Forall (wf w) L -> chain (fun x y => net_lt w y x = false) L ->
  Forall (wf w) s -> chain (fun x y => merged_ok w y x) s ->
  (forall prev rest a L', s = prev :: rest -> L = a :: L' -> net_lt w a prev = false) ->
  Forall (wf w) (fold_left (add_merged w) L s)
  /\ chain (fun x y => merged_ok w y x) (fold_left (add_merged w) L s).
Proof.
  induction L as [|a L IH]; intros s HL Hc Hs Hsc Hh; cbn [fold_left]; [auto|].
  inversion HL as [|? ? Ha HL']; subst.
  destruct (add_merged_inv s a Hs Hsc Ha (fun prev rest E => Hh prev rest a L E eq_refl))
    as (A & B & C).
  apply IH; try assumption; [exact (chain_tail _ a L Hc)|].
  intros prev rest b L' E1 E2. subst L.
  specialize (C prev rest E1).
  assert (Hprev : wf w prev) by (rewrite Forall_forall in A; apply A; rewrite E1; now left).
  inversion HL' as [|? ? Hb _]; subst.
  apply lex_trans with a; try assumption. exact (proj1 Hc).
Qed.

End MergeInvariant.

Section MergeResults.

Variable w : Z.
Hypothesis w_pos : 0 < w.

Lemma covers_list_perm : forall l l' x, Permutation l l' -> covers_list w l x = covers_list w l' x.
Proof.
  intros l l' x H. unfold covers_list. induction H; cbn [existsb].
  - reflexivity.
  - now rewrite IHPermutation.
  - now rewrite !orb_assoc, (orb_comm (covers w y x)).
  - congruence.
Qed.

Lemma subnet_of_covers : forall a b x, subnet_of w a b = true -> covers w a x = true ->
  covers w b x = true.
Proof.
  unfold subnet_of, covers. intros a b x H1 H2.
  rewrite andb_true_iff, !Z.leb_le in *. lia.
Qed.

Lemma covers_iff : forall n x, wf w n ->
  (covers w n x = true <-> network_address n <= x <= network_address n + 2 ^ (w - prefixlen n) - 1).
Proof.
  intros n x Hn. unfold covers. rewrite broadcast_value by assumption.
  rewrite andb_true_iff, !Z.leb_le. reflexivity.
Qed.

Lemma covers_siblings : forall a b x, wf w a -> wf w b -> siblings w a b ->
  covers w (supernet w b) x = covers w a x || covers w b x.
Proof.
  intros a b x Ha Hb Hs. pose proof (supernet_wf w w_pos b Hb) as HS.
  pose proof (siblings_supernet w w_pos a b Hb Hs) as E.
  pose proof (wf_prefixlen w b Hb).
  apply eq_true_iff_eq. rewrite orb_true_iff, !covers_iff by assumption.
  rewrite E. cbn. destruct Hs as (Hpl & Hp & Hbase & _).
  replace (w - (prefixlen a - 1)) with (w - prefixlen b + 1) by lia.
  rewrite pow2_double by lia. rewrite Hpl. lia.
Qed.

Lemma add_merged_wf : forall s a, Forall (wf w) s -> wf w a -> Forall (wf w) (add_merged w s a).
Proof.
  induction s as [|prev rest IH]; intros a Hs Ha; cbn; [now constructor|].
  inversion Hs; subst.
  destruct (subnet_of w a prev); [exact Hs|].
  destruct (nets_eqb w (subnets w (supernet w a)) [prev; a]); cbn [negb].
  - apply IH; [assumption|]. now apply supernet_wf.
  - now constructor.
Qed.

Lemma covers_list_cons : forall a l x,
  covers_list w (a :: l) x = covers w a x || covers_list w l x.
Proof. reflexivity. Qed.

Lemma covers_add_merged : forall s a x, Forall (wf w) s -> wf w a ->
  covers_list w (add_merged w s a) x = covers_list w s x || covers w a x.
Proof.
  induction s as [|prev rest IH]; intros a x Hs Ha.
  - cbn. destruct (covers w a x); reflexivity.
  - inversion Hs as [|? ? Hprev Hrest]; subst. cbn [add_merged].
    destruct (subnet_of w a prev) eqn:Hsub.
    + destruct (covers w a x) eqn:Hc; [|now rewrite orb_false_r].
      rewrite covers_list_cons, (subnet_of_covers a prev x Hsub Hc). reflexivity.
    + destruct (nets_eqb w (subnets w (supernet w a)) [prev; a]) eqn:Heq; cbn [negb].
      * rewrite IH by (try assumption; now apply supernet_wf).
        apply siblings_check in Heq; [|assumption..].
        rewrite (covers_siblings prev a x), covers_list_cons by assumption.
        destruct (covers_list w rest x), (covers w prev x), (covers w a x); reflexivity.
      * rewrite !covers_list_cons.
        destruct (covers_list w rest x), (covers w prev x), (covers w a x); reflexivity.
Qed.

Lemma covers_fold : forall L s x, Forall (wf w) L -> Forall (wf w) s ->
  covers_list w (fold_left (add_merged w) L s) x = covers_list w s x || covers_list w L x.
Proof.
  induction L as [|a L IH]; intros s x HL Hs; cbn [fold_left].
  - now rewrite orb_false_r.
  - inversion HL; subst. rewrite IH by (try assumption; now apply add_merged_wf).
    rewrite covers_add_merged, covers_list_cons by assumption. now rewrite orb_assoc.
Qed.

Lemma merge_wf_chain : forall X, Forall (wf w) X ->
  Forall (wf w) (merge w X) /\ chain (merged_ok w) (merge w X).
Proof.
  intros X HX. unfold merge. destruct (sort w X) as [|a L] eqn:E; [split; [constructor|exact I]|].
  destruct (fold_add_merged_inv w w_pos (a :: L) [])
    as (A & B); [rewrite <- E; now apply sort_wf|rewrite <- E; apply sort_chain|constructor|exact I
                |intros ? ? ? ? F; discriminate F|].
  split; [now apply Forall_rev|now apply chain_rev_flip].
Qed.

Lemma Forall_firstn_net : forall (P : net -> Prop) n l, Forall P l -> Forall P (firstn n l).
Proof.
  intros P n. induction n as [|n IH]; intros l H; [constructor|].
  destruct l as [|a l]; [constructor|]. inversion H; subst. cbn. constructor; auto.
Qed.

Lemma accumulator_wf_chain : forall X n, Forall (wf w) X ->
  Forall (wf w) (accumulator w X n) /\ chain (merged_ok w) (accumulator w X n).
Proof.
  intros X n HX. unfold accumulator.
  destruct (fold_add_merged_inv w w_pos (firstn n (sort w X)) [])
    as (A & B); [now apply Forall_firstn_net, sort_wf|apply chain_firstn, sort_chain
                |constructor|exact I|intros ? ? ? ? F; discriminate F|].
  split; [now apply Forall_rev|now apply chain_rev_flip].
Qed.

Lemma before_not_subnet : forall a b, wf w a -> before w a b ->
  subnet_of w a b = false /\ subnet_of w b a = false.
Proof.
  intros a b Ha [H1 H2]. pose proof (wf_base_le_broadcast w w_pos a Ha).
  unfold subnet_of. split; apply not_true_iff_false; rewrite andb_true_iff, !Z.leb_le; lia.
Qed.

Lemma in_wf : forall l a, Forall (wf w) l -> In a l -> wf w a.
Proof. intros l a H Hin. rewrite Forall_forall in H. now apply H. Qed.

Lemma siblings_next : forall a b, wf w a -> siblings w a b ->
  network_address b = broadcast_address w a + 1.
Proof.
  intros a b Ha (Hpl & _ & Hbase & _). rewrite broadcast_value by assumption. rewrite Hpl. lia.
Qed.

Lemma sort_strict_id : forall l, chain (fun a b => net_lt w a b = true) l -> sort w l = l.
Proof.
  induction l as [|a l IH]; intros H; [reflexivity|].
  cbn [sort]. rewrite (IH (chain_tail _ a l H)).
  destruct l as [|b l]; [reflexivity|]. cbn [insert].
  now rewrite (net_lt_asym w a b (proj1 H)).
Qed.

Lemma chain_impl_wf : forall (R R' : net -> net -> Prop) l,
  (forall a b, wf w a -> R a b -> R' a b) -> Forall (wf w) l -> chain R l -> chain R' l.
Proof.
  intros R R' l HR. induction l as [|a l IH]; intros Hw Hc; [exact I|].
  inversion Hw; subst. destruct l as [|b l]; [exact I|].
  split; [now apply HR, Hc|]. exact (IH H2 (proj2 Hc)).
Qed.

Lemma fold_merged_id : forall L P, Forall (wf w) (P ++ L) -> chain (merged_ok w) (P ++ L) ->
  fold_left (add_merged w) L (rev P) = rev (P ++ L).
Proof.
  induction L as [|a L IH]; intros P Hw Hc; cbn [fold_left]; [now rewrite app_nil_r|].
  assert (E : add_merged w (rev P) a = rev (P ++ [a])).
  { rewrite rev_app_distr. cbn.
    destruct (rev P) as [|prev rest] eqn:EP; [reflexivity|].
    assert (P = rev rest ++ [prev]) as EP'.
    { rewrite <- (rev_involutive P), EP. reflexivity. }
    rewrite EP' in Hw, Hc. rewrite <- app_assoc in Hw, Hc. cbn in Hw, Hc.
    destruct (chain_adjacent _ _ _ _ _ Hc) as [Hbef Hns].
    assert (Hprev : wf w prev) by (apply (in_wf _ _ Hw); apply in_or_app; right; now left).
    assert (Ha : wf w a) by (apply (in_wf _ _ Hw); apply in_or_app; right; right; now left).
    cbn [add_merged].
    destruct (before_not_subnet prev a Hprev Hbef) as [_ ->].
    destruct (nets_eqb w (subnets w (supernet w a)) [prev; a]) eqn:Heq; [|reflexivity].
    apply siblings_check in Heq; [contradiction|assumption..]. }
  rewrite E, IH; rewrite <- app_assoc; auto.
Qed.

End MergeResults.

(** ** [merge]: the claims *)

(** Union preservation, shared by the statements below. *)
Lemma merge_covers_list (w : Z) (Hw : 0 < w) (X : list net) (HX : Forall (wf w) X) (x : Z) :
  covers_list w (merge w X) x = covers_list w X x.
Proof.
  rewrite <- (covers_list_perm w (sort w X) X x (sort_perm w X)).
  unfold merge. destruct (sort w X) as [|a L] eqn:E; [reflexivity|].
  rewrite (covers_list_perm w _ _ x (Permutation_sym (Permutation_rev _))).
  rewrite covers_fold; [reflexivity|exact Hw| |constructor].
  rewrite <- E. now apply sort_wf.
Qed.

(** C1 (union preservation): for networks [X] of one family, an address lies
    in some network of [merge X] exactly when it lies in some network of [X]. *)
Theorem merge_union (w : Z) (Hw : 0 < w) (X : list net) (HX : Forall (wf w) X) (x : Z) :
  covers_list w (merge w X) x = covers_list w X x.
Proof. exact (merge_covers_list w Hw X HX x). Qed.

(** C2 (minimality): no two networks of [merge X] are the two halves of one
    valid network. *)
Theorem merge_no_collapse (w : Z) (Hw : 0 < w) (X : list net) (HX : Forall (wf w) X) :
  forall a b, In a (merge w X) -> In b (merge w X) -> ~ combinable w a b.
Proof.
  intros a b Ha Hb Hcomb. apply combinable_siblings in Hcomb; [|exact Hw].
  destruct (merge_wf_chain w Hw X HX) as [Hwf Hc].
  pose proof (in_wf w _ _ Hwf Ha) as Hwa. pose proof (in_wf w _ _ Hwf Hb) as Hwb.
  pose proof (siblings_next w Hw a b Hwa Hcomb) as Hnext.
  pose proof (wf_base_le_broadcast w Hw a Hwa). pose proof (wf_base_le_broadcast w Hw b Hwb).
  destruct (in_split a _ Ha) as (l1 & r & E). rewrite E in Hb, Hc.
  apply in_app_or in Hb. destruct Hb as [Hb|[<-|Hb]].
  - destruct (in_split b _ Hb) as (m1 & m2 & E1). subst l1.
    rewrite <- app_assoc in Hc. cbn in Hc.
    destruct (chain_before_pairwise w m1 b m2 a r Hc) as [H1 _]. lia.
  - lia.
  - destruct (in_split b _ Hb) as (l2 & l3 & E2). subst r.
    destruct l2 as [|c l2].
    + cbn in Hc. destruct (chain_adjacent _ _ _ _ _ Hc) as [_ Hns]. contradiction.
    + destruct (chain_before_pairwise w l1 a [] c (l2 ++ b :: l3) Hc) as [H1 H2].
      assert (Hc' : chain (merged_ok w) ((l1 ++ [a]) ++ c :: l2 ++ b :: l3))
        by (rewrite <- app_assoc; exact Hc).
      destruct (chain_before_pairwise w (l1 ++ [a]) c l2 b l3 Hc') as [H3 _]. lia.
Qed.

(** C3 (invariant, order, non-overlap): after each iteration of the loop of
    [merge] the accumulator holds no two networks one of which contains the
    other and no two successive entries that are the halves of one network;
    the output is strictly ascending by network address and its networks are
    pairwise disjoint. *)
Theorem merge_invariants (w : Z) (Hw : 0 < w) (X : list net) (HX : Forall (wf w) X) :
  (forall n,
     (forall l1 a l2 b l3, accumulator w X n = l1 ++ a :: l2 ++ b :: l3 ->
        subnet_of w a b = false /\ subnet_of w b a = false)
     /\ (forall l1 a b l3, accumulator w X n = l1 ++ a :: b :: l3 -> ~ combinable w a b))
  /\ (forall l1 a l2 b l3, merge w X = l1 ++ a :: l2 ++ b :: l3 ->
        network_address a < network_address b
        /\ subnet_of w a b = false /\ subnet_of w b a = false
        /\ forall x, covers w a x && covers w b x = false).
Proof.
  split.
  - intros n. destruct (accumulator_wf_chain w Hw X n HX) as [Hwf Hc]. split.
    + intros l1 a l2 b l3 E. rewrite E in Hwf, Hc.
      apply before_not_subnet; [exact Hw| |exact (chain_before_pairwise w _ _ _ _ _ Hc)].
      apply (in_wf w _ _ Hwf). apply in_or_app. right. now left.
    + intros l1 a b l3 E Hcomb. rewrite E in Hc.
      destruct (chain_adjacent _ _ _ _ _ Hc) as [_ Hns].
      apply Hns. now apply combinable_siblings.
  - intros l1 a l2 b l3 E. destruct (merge_wf_chain w Hw X HX) as [Hwf Hc].
    rewrite E in Hwf, Hc.
    assert (Hwa : wf w a) by (apply (in_wf w _ _ Hwf); apply in_or_app; right; now left).
    pose proof (chain_before_pairwise w _ _ _ _ _ Hc) as Hbef.
    pose proof (wf_base_le_broadcast w Hw a Hwa).
    destruct (before_not_subnet w Hw a b Hwa Hbef) as [S1 S2].
    destruct Hbef as [B1 B2].
    split; [lia|]. split; [exact S1|]. split; [exact S2|].
    intros x. unfold covers. apply not_true_iff_false.
    rewrite !andb_true_iff, !Z.leb_le. lia.
Qed.

(** C4 (idempotence): merging the output of [merge] again returns it
    unchanged. *)
Theorem merge_idempotent (w : Z) (Hw : 0 < w) (X : list net) (HX : Forall (wf w) X) :
  merge w (merge w X) = merge w X.
Proof.
  destruct (merge_wf_chain w Hw X HX) as [Hwf Hc].
  assert (Hs : sort w (merge w X) = merge w X).
  { apply sort_strict_id. apply (chain_impl_wf w (merged_ok w)); [|exact Hwf|exact Hc].
    intros a b Ha [[H1 H2] _]. pose proof (wf_base_le_broadcast w Hw a Ha).
    unfold net_lt. destruct (Z.eqb_spec (network_address a) (network_address b)); [lia|].
    cbn. apply Z.ltb_lt. lia. }
  unfold merge at 1. rewrite Hs.
  destruct (merge w X) as [|a L] eqn:E; [reflexivity|].
  change (rev (fold_left (add_merged w) (a :: L) []) = a :: L).
  pose proof (fold_merged_id w Hw (a :: L) [] Hwf Hc) as F.
  change (rev (@nil net)) with (@nil net) in F. change ([] ++ a :: L) with (a :: L) in F.
  rewrite F. apply rev_involutive.
Qed.


Lemma merge_union_witness :
  Forall (wf 32) sample_nets
  /\ covers_list 32 (merge 32 sample_nets) (ip4 8 8 9 77)
     = covers_list 32 sample_nets (ip4 8 8 9 77).
Proof.
  split; [repeat constructor|].
  apply (merge_union 32 ltac:(lia) sample_nets). repeat constructor.
Defined.

Lemma merge_no_collapse_witness :
  Forall (wf 32) sample_nets
  /\ (forall a b, In a (merge 32 sample_nets) -> In b (merge 32 sample_nets) ->
        ~ combinable 32 a b).
Proof.
  split; [repeat constructor|].
  apply (merge_no_collapse 32 ltac:(lia) sample_nets). repeat constructor.
Defined.

Lemma merge_invariants_witness :
  Forall (wf 32) sample_nets
  /\ ((forall n,
        (forall l1 a l2 b l3, accumulator 32 sample_nets n = l1 ++ a :: l2 ++ b :: l3 ->
           subnet_of 32 a b = false /\ subnet_of 32 b a = false)
        /\ (forall l1 a b l3, accumulator 32 sample_nets n = l1 ++ a :: b :: l3 ->
              ~ combinable 32 a b))
      /\ (forall l1 a l2 b l3, merge 32 sample_nets = l1 ++ a :: l2 ++ b :: l3 ->
            network_address a < network_address b
            /\ subnet_of 32 a b = false /\ subnet_of 32 b a = false
            /\ forall x, covers 32 a x && covers 32 b x = false)).
Proof.
  split; [repeat constructor|].
  apply (merge_invariants 32 ltac:(lia) sample_nets). repeat constructor.
Defined.

Lemma merge_idempotent_witness :
  Forall (wf 32) sample_nets
  /\ merge 32 (merge 32 sample_nets) = merge 32 sample_nets.
Proof.
  split; [repeat constructor|].
  apply (merge_idempotent 32 ltac:(lia) sample_nets). repeat constructor.
Defined.

(** ** [add_addr] and [run] *)

Section Pipeline.

Variable lib : ipaddress_lib.

Lemma set_add_Forall {A : Type} (P : A -> Prop) (eqb : A -> A -> bool) (x : A) (s : list A) :
  Forall P s -> P x -> Forall P (set_add eqb x s).
Proof.
  intros Hs Hx. unfold set_add. destruct (existsb (eqb x) s); [exact Hs|].
  apply Forall_app. split; [exact Hs|]. now constructor.
Qed.

Lemma add_addr_good (Hlib : lib_wf lib) (s : string) (st : run_state) :
  good_state lib st -> good_state lib (add_addr lib s st).
Proof.
  intros Hst. unfold add_addr.
  destruct (ip_network lib s) as [a|] eqn:Ep; [|exact Hst].
  destruct (is_multicast lib a) eqn:E1; [exact Hst|].
  destruct (is_private lib a) eqn:E2; [exact Hst|].
  destruct (is_unspecified lib a) eqn:E3; [exact Hst|].
  destruct (is_reserved lib a) eqn:E4; [exact Hst|].
  destruct (is_loopback lib a) eqn:E5; [exact Hst|].
  destruct (is_link_local lib a) eqn:E6; [exact Hst|].
  unfold good_state, add_to_addrs. cbn [addrs].
  apply set_add_Forall; [exact Hst|].
  split; [repeat split; assumption|exact (Hlib s a Ep)].
Qed.

Lemma fold_add_addr_good (Hlib : lib_wf lib) (l : list string) (st : run_state) :
  good_state lib st -> good_state lib (fold_left (fun st a => add_addr lib a st) l st).
Proof.
  revert st. induction l as [|a l IH]; intros st Hst; [exact Hst|].
  cbn [fold_left]. apply IH. now apply add_addr_good.
Qed.

Lemma fold_left_same_addrs {B : Type} (f : run_state -> B -> run_state)
  (Hf : forall st x, addrs (f st x) = addrs st) (l : list B) (st : run_state) :
  addrs (fold_left f l st) = addrs st.
Proof.
  revert st. induction l as [|x l IH]; intros st; [reflexivity|].
  cbn [fold_left]. rewrite IH. apply Hf.
Qed.

Lemma add_domain_token_addrs (st : run_state) (d : string) :
  addrs (add_domain_token st d) = addrs st.
Proof. unfold add_domain_token. now destruct (String.eqb _ _). Qed.

Lemma add_url_token_addrs (st : run_state) (u : string) :
  addrs (add_url_token st u) = addrs st.
Proof. unfold add_url_token. now destruct (urlsplit_hostname u). Qed.

Lemma process_row_good (Hlib : lib_wf lib) (jobs : Z) (st st' : run_state) (row : list string) :
  good_state lib st -> process_row lib jobs st row = inr st' -> good_state lib st'.
Proof.
  intros Hst E. unfold process_row in E.
  destruct (nth_error row 0) as [f0|]; [|discriminate].
  pose proof (fold_add_addr_good Hlib (iter_field f0) st Hst) as H0.
  destruct (jobs =? 0).
  - injection E as <-. exact H0.
  - destruct (nth_error row 1) as [f1|]; [|discriminate].
    destruct (nth_error row 2) as [f2|]; [|discriminate].
    injection E as <-. unfold good_state.
    rewrite (fold_left_same_addrs add_url_token add_url_token_addrs).
    rewrite (fold_left_same_addrs add_domain_token add_domain_token_addrs).
    exact H0.
Qed.

Lemma process_rows_good (Hlib : lib_wf lib) (jobs : Z) (rows : list (list string))
  (st st' : run_state) :
  good_state lib st -> process_rows lib jobs rows st = inr st' -> good_state lib st'.
Proof.
  revert st. induction rows as [|row rows IH]; intros st Hst E.
  - cbn in E. injection E as <-. exact Hst.
  - cbn [process_rows] in E.
    destruct (process_row lib jobs st row) as [e|st1] eqn:Er; [discriminate|].
    apply (IH st1); [|exact E]. exact (process_row_good Hlib jobs st st1 row Hst Er).
Qed.

Lemma resolve_domains_good (Hlib : lib_wf lib) (resolve : option string -> list string)
  (st : run_state) :
  good_state lib st -> good_state lib (resolve_domains lib resolve st).
Proof.
  unfold resolve_domains. generalize (domains st). intros ds.
  revert st. induction ds as [|d ds IH]; intros st Hst; [exact Hst|].
  cbn [fold_left]. apply IH. now apply fold_add_addr_good.
Qed.

Lemma run_result (Hlib : lib_wf lib) (resolve : option string -> list string)
  (dump : list (list string)) (jobs : Z) (v4 v6 : list net) (st : run_state) :
  run lib resolve dump jobs = inr (v4, v6, st) ->
  good_state lib st /\ v4 = merge 32 (v4_blocks (addrs st))
  /\ v6 = merge 128 (v6_blocks (addrs st)).
Proof.
  intros E. unfold run in E.
  destruct dump as [|h rows]; [discriminate|].
  destruct (process_rows lib jobs rows empty_state) as [e|st0] eqn:Er; [discriminate|].
  assert (G0 : good_state lib st0)
    by (apply (process_rows_good Hlib jobs rows empty_state); [constructor|exact Er]).
  assert (G : forall st1,
             (if jobs =? 0 then inr st0
              else if jobs <? 0 then inl ValueError
              else inr (resolve_domains lib resolve st0)) = @inr py_exn run_state st1 ->
             good_state lib st1).
  { intros st1 E1. destruct (jobs =? 0); [injection E1 as <-; exact G0|].
    destruct (jobs <? 0); [discriminate|]. injection E1 as <-.
    now apply resolve_domains_good. }
  destruct (if jobs =? 0 then inr st0
            else if jobs <? 0 then inl ValueError
            else inr (resolve_domains lib resolve st0)) as [e|st1] eqn:E1; [discriminate|].
  injection E as <- <- <-. split; [exact (G st1 eq_refl)|split; reflexivity].
Qed.

End Pipeline.

Lemma v4_blocks_In (l : list ip_net) (n : net) : In n (v4_blocks l) <-> In (IPv4Network n) l.
Proof.
  induction l as [|a l IH]; [simpl; tauto|].
  destruct a as [m|m]; cbn [v4_blocks fold_right In]; fold (v4_blocks l); rewrite IH;
    split; intros H; try (destruct H as [H|H]); try discriminate; auto.
  all: first [left; congruence | right; assumption | now right].
Qed.

Lemma v6_blocks_In (l : list ip_net) (n : net) : In n (v6_blocks l) <-> In (IPv6Network n) l.
Proof.
  induction l as [|a l IH]; [simpl; tauto|].
  destruct a as [m|m]; cbn [v6_blocks fold_right In]; fold (v6_blocks l); rewrite IH;
    split; intros H; try (destruct H as [H|H]); try discriminate; auto.
  all: first [left; congruence | right; assumption | now right].
Qed.

Lemma covers_list_exists (w : Z) (l : list net) (x : Z) :
  covers_list w l x = true -> exists n, In n l /\ covers w n x = true.
Proof. unfold covers_list. apply existsb_exists. Qed.

Lemma python_ipaddress_wf : lib_wf python_ipaddress.
Proof.
  intros s a E. cbn [ip_network python_ipaddress] in E. unfold py_ip_network in E.
  destruct (parse_ipv4_network s) as [n|] eqn:Ep; [|discriminate].
  injection E as <-. cbn [ip_width ip_block].
  unfold parse_ipv4_network, make_ipv4_network in Ep.
  destruct (py_split "/" s) as [|a1 [|m [|? ?]]]; try discriminate;
    destruct (parse_ipv4_address a1) as [b|]; try discriminate;
    [|destruct (parse_prefixlen m) as [p|]; try discriminate];
    match type of Ep with
    | (if wfb 32 ?k then _ else _) = _ =>
        destruct (wfb 32 k) eqn:Hw; [injection Ep as <-; exact Hw|discriminate]
    end.
Qed.

(** ** [resolve_dns] *)

Section ResolveFacts.

Variable getaddrinfo : option string -> nat -> gai_result.
Variable d : option string.

Lemma resolve_loop_retries (n : nat) : forall attempt addrs0 trace fuel,
  (forall i, (attempt <= i < attempt + n)%nat -> getaddrinfo d i = GaiError EAI_AGAIN) ->
  resolve_loop getaddrinfo (n + fuel) d attempt addrs0 trace
  = resolve_loop getaddrinfo fuel d (attempt + n) addrs0 (trace ++ retry_trace d n).
Proof.
  induction n as [|n IH]; intros attempt addrs0 trace fuel H.
  - cbn. now rewrite Nat.add_0_r, app_nil_r.
  - cbn [Nat.add resolve_loop]. rewrite (H attempt) by lia. cbn [Z.eqb EAI_AGAIN].
    rewrite IH by (intros i Hi; apply H; lia).
    replace (S attempt + n)%nat with (attempt + S n)%nat by lia.
    f_equal. unfold retry_trace, retry_round. cbn [repeat List.concat].
    rewrite <- !app_assoc. reflexivity.
Qed.

Lemma resolve_loop_returns (fuel : nat) : forall attempt addrs0 trace r,
  resolve_loop getaddrinfo fuel d attempt addrs0 trace = Some r ->
  exists k, (attempt <= k < attempt + fuel)%nat
    /\ (forall i, (attempt <= i < k)%nat -> getaddrinfo d i = GaiError EAI_AGAIN)
    /\ getaddrinfo d k <> GaiError EAI_AGAIN.
Proof.
  induction fuel as [|fuel IH]; intros attempt addrs0 trace r E; [discriminate|].
  cbn [resolve_loop] in E.
  destruct (getaddrinfo d attempt) as [l|code] eqn:G.
  - exists attempt. split; [lia|]. split; [intros i Hi; lia|]. rewrite G. discriminate.
  - destruct (Z.eqb_spec code EAI_AGAIN) as [->|Hne].
    + destruct (IH _ _ _ _ E) as (k & Hk & Hbefore & Hk').
      exists k. split; [lia|]. split; [|exact Hk'].
      intros i Hi. destruct (Nat.eq_dec i attempt) as [->|]; [exact G|]. apply Hbefore. lia.
    + exists attempt. split; [lia|]. split; [intros i Hi; lia|]. rewrite G. congruence.
Qed.

Lemma resolve_loop_stuck (fuel : nat) : forall attempt addrs0 trace,
  (forall i, getaddrinfo d i = GaiError EAI_AGAIN) ->
  resolve_loop getaddrinfo fuel d attempt addrs0 trace = None.
Proof.
  induction fuel as [|fuel IH]; intros attempt addrs0 trace H; [reflexivity|].
  cbn [resolve_loop]. rewrite H. cbn [Z.eqb EAI_AGAIN]. now apply IH.
Qed.

End ResolveFacts.

(** ** The claims on the pipeline *)

(** C5 (scenario 1), counterexample: [ipaddress] counts 192.0.2.0/24
    (TEST-NET-1) among its private ranges, so both /25 halves are rejected
    together with 10.0.0.0/8 and the output is empty, not 192.0.2.0/24. *)
Lemma scenario1_counterexample :
  run python_ipaddress no_resolver (dump_of "10.0.0.0/8|192.0.2.0/25|192.0.2.128/25" "" "") 0
  = inr ([], [],
         mkstate [] []
           [Ignoring Private (IPv4Network (mknet (ip4 10 0 0 0) 8));
            Ignoring Private (IPv4Network (mknet (ip4 192 0 2 0) 25));
            Ignoring Private (IPv4Network (mknet (ip4 192 0 2 128) 25))]).
Proof. vm_compute. reflexivity. Qed.

(** C5 (scenario 1), amended: on 10.0.0.0/8, 192.0.2.0/25, 192.0.2.128/25
    all three networks are rejected as private and both outputs are empty;
    with two halves that are accepted (8.8.8.0/25 and 8.8.8.128/25) next to
    10.0.0.0/8, the private network is rejected and the halves collapse into
    the single IPv4 output 8.8.8.0/24. *)
Theorem scenario1_outputs :
  run python_ipaddress no_resolver (dump_of "10.0.0.0/8|192.0.2.0/25|192.0.2.128/25" "" "") 0
  = inr ([], [],
         mkstate [] []
           [Ignoring Private (IPv4Network (mknet (ip4 10 0 0 0) 8));
            Ignoring Private (IPv4Network (mknet (ip4 192 0 2 0) 25));
            Ignoring Private (IPv4Network (mknet (ip4 192 0 2 128) 25))])
  /\ run python_ipaddress no_resolver (dump_of "10.0.0.0/8|8.8.8.0/25|8.8.8.128/25" "" "") 0
  = inr ([mknet (ip4 8 8 8 0) 24], [],
         mkstate [IPv4Network (mknet (ip4 8 8 8 0) 25); IPv4Network (mknet (ip4 8 8 8 128) 25)] []
           [Ignoring Private (IPv4Network (mknet (ip4 10 0 0 0) 8))]).
Proof. split; vm_compute; reflexivity. Qed.

(** C6 (exclusion), counterexample: 10.0.0.0/7 is not private as a network
    (its last address 11.255.255.255 is public), so it is kept and emitted,
    although it contains the private address 10.0.0.1. *)
Lemma exclusion_counterexample :
  run python_ipaddress no_resolver (dump_of "10.0.0.0/7" "" "") 0
  = inr ([mknet (ip4 10 0 0 0) 7], [], mkstate [IPv4Network (mknet (ip4 10 0 0 0) 7)] [] [])
  /\ covers 32 (mknet (ip4 10 0 0 0) 7) (ip4 10 0 0 1) = true
  /\ ipv4_address_is_private (ip4 10 0 0 1) = true.
Proof. vm_compute. repeat split. Qed.

(** C6 (exclusion), amended: whatever the input, every network kept in the
    address set satisfies none of the six network predicates, and every
    address covered by the IPv4 or IPv6 output lies in such a kept network.
    Networks that only partly overlap a category are kept. *)
Theorem run_output_accepted (lib : ipaddress_lib) (resolve : option string -> list string)
  (dump : list (list string)) (jobs : Z) (v4 v6 : list net) (st : run_state)
  (Hlib : lib_wf lib) (Hrun : run lib resolve dump jobs = inr (v4, v6, st)) :
  (forall a, In a (addrs st) -> accepted lib a)
  /\ (forall x, covers_list 32 v4 x = true ->
        exists n, In (IPv4Network n) (addrs st) /\ accepted lib (IPv4Network n)
                  /\ covers 32 n x = true)
  /\ (forall x, covers_list 128 v6 x = true ->
        exists n, In (IPv6Network n) (addrs st) /\ accepted lib (IPv6Network n)
                  /\ covers 128 n x = true).
Proof.
  destruct (run_result lib Hlib resolve dump jobs v4 v6 st Hrun) as (G & -> & ->).
  unfold good_state in G. rewrite Forall_forall in G.
  split; [intros a Ha; exact (proj1 (G a Ha))|split].
  - intros x Hx. rewrite merge_covers_list in Hx; [|lia|].
    + destruct (covers_list_exists _ _ _ Hx) as (n & Hn & Hc).
      apply v4_blocks_In in Hn. exists n. split; [exact Hn|]. split; [exact (proj1 (G _ Hn))|exact Hc].
    + apply Forall_forall. intros n Hn. apply v4_blocks_In in Hn. exact (proj2 (G _ Hn)).
  - intros x Hx. rewrite merge_covers_list in Hx; [|lia|].
    + destruct (covers_list_exists _ _ _ Hx) as (n & Hn & Hc).
      apply v6_blocks_In in Hn. exists n. split; [exact Hn|]. split; [exact (proj1 (G _ Hn))|exact Hc].
    + apply Forall_forall. intros n Hn. apply v6_blocks_In in Hn. exact (proj2 (G _ Hn)).
Qed.

Lemma run_output_accepted_witness :
  lib_wf python_ipaddress
  /\ run python_ipaddress no_resolver (dump_of "10.0.0.0/8|8.8.8.0/25|8.8.8.128/25" "" "") 0
     = inr ([mknet (ip4 8 8 8 0) 24], [],
            mkstate [IPv4Network (mknet (ip4 8 8 8 0) 25); IPv4Network (mknet (ip4 8 8 8 128) 25)] []
              [Ignoring Private (IPv4Network (mknet (ip4 10 0 0 0) 8))])
  /\ (forall a, In a [IPv4Network (mknet (ip4 8 8 8 0) 25); IPv4Network (mknet (ip4 8 8 8 128) 25)] ->
        accepted python_ipaddress a)
  /\ (forall x, covers_list 32 [mknet (ip4 8 8 8 0) 24] x = true ->
        exists n, In (IPv4Network n) [IPv4Network (mknet (ip4 8 8 8 0) 25);
                                      IPv4Network (mknet (ip4 8 8 8 128) 25)]
                  /\ accepted python_ipaddress (IPv4Network n) /\ covers 32 n x = true)
  /\ (forall x, covers_list 128 [] x = true ->
        exists n, In (IPv6Network n) [IPv4Network (mknet (ip4 8 8 8 0) 25);
                                      IPv4Network (mknet (ip4 8 8 8 128) 25)]
                  /\ accepted python_ipaddress (IPv6Network n) /\ covers 128 n x = true).
Proof.
  assert (Hrun : run python_ipaddress no_resolver
                   (dump_of "10.0.0.0/8|8.8.8.0/25|8.8.8.128/25" "" "") 0
                 = inr ([mknet (ip4 8 8 8 0) 24], [],
                        mkstate [IPv4Network (mknet (ip4 8 8 8 0) 25);
                                 IPv4Network (mknet (ip4 8 8 8 128) 25)] []
                          [Ignoring Private (IPv4Network (mknet (ip4 10 0 0 0) 8))]))
    by (vm_compute; reflexivity).
  split; [exact python_ipaddress_wf|]. split; [exact Hrun|].
  exact (run_output_accepted python_ipaddress no_resolver _ 0 _ _ _ python_ipaddress_wf Hrun).
Defined.

(** C7 (screening order): for a network [a] that [ip_network] returns, the
    first of multicast, private, unspecified, reserved, loopback, link-local
    that holds decides the rejection and its log reason, whatever the later
    predicates say; a network for which none holds is added to [addrs] with
    set semantics (no change when an equal network is already there, an
    append otherwise); the six reasons are distinct. *)
Theorem add_addr_screening (lib : ipaddress_lib) (s : string) (a : ip_net) (st : run_state)
  (Hparse : ip_network lib s = Some a) :
  (is_multicast lib a = true -> add_addr lib s st = push_log (Ignoring Multicast a) st)
  /\ (is_multicast lib a = false -> is_private lib a = true ->
        add_addr lib s st = push_log (Ignoring Private a) st)
  /\ (is_multicast lib a = false -> is_private lib a = false -> is_unspecified lib a = true ->
        add_addr lib s st = push_log (Ignoring Unspecified a) st)
  /\ (is_multicast lib a = false -> is_private lib a = false -> is_unspecified lib a = false ->
        is_reserved lib a = true -> add_addr lib s st = push_log (Ignoring Reserved a) st)
  /\ (is_multicast lib a = false -> is_private lib a = false -> is_unspecified lib a = false ->
        is_reserved lib a = false -> is_loopback lib a = true ->
        add_addr lib s st = push_log (Ignoring Loopback a) st)
  /\ (is_multicast lib a = false -> is_private lib a = false -> is_unspecified lib a = false ->
        is_reserved lib a = false -> is_loopback lib a = false -> is_link_local lib a = true ->
        add_addr lib s st = push_log (Ignoring LinkLocal a) st)
  /\ (accepted lib a -> add_addr lib s st = add_to_addrs a st)
  /\ (existsb (ip_net_eqb a) (addrs st) = true -> addrs (add_addr lib s st) = addrs st)
  /\ (accepted lib a -> existsb (ip_net_eqb a) (addrs st) = false ->
        addrs (add_addr lib s st) = addrs st ++ [a])
  /\ NoDup [Multicast; Private; Unspecified; Reserved; Loopback; LinkLocal].
Proof.
  unfold add_addr. rewrite Hparse.
  split; [intros ->; reflexivity|].
  split; [intros -> ->; reflexivity|].
  split; [intros -> -> ->; reflexivity|].
  split; [intros -> -> -> ->; reflexivity|].
  split; [intros -> -> -> -> ->; reflexivity|].
  split; [intros -> -> -> -> -> ->; reflexivity|].
  split; [intros (-> & -> & -> & -> & -> & ->); reflexivity|].
  split.
  - intros Hin.
    destruct (is_multicast lib a); [reflexivity|].
    destruct (is_private lib a); [reflexivity|].
    destruct (is_unspecified lib a); [reflexivity|].
    destruct (is_reserved lib a); [reflexivity|].
    destruct (is_loopback lib a); [reflexivity|].
    destruct (is_link_local lib a); [reflexivity|].
    cbn [add_to_addrs addrs]. unfold set_add. now rewrite Hin.
  - split.
    + intros (-> & -> & -> & -> & -> & ->) Hnot.
      cbn [add_to_addrs addrs]. unfold set_add. now rewrite Hnot.
    + repeat constructor; cbn; intuition discriminate.
Qed.

Lemma add_addr_screening_witness :
  ip_network python_ipaddress "224.0.0.0/4" = Some (IPv4Network (mknet (ip4 224 0 0 0) 4))
  /\ add_addr python_ipaddress "224.0.0.0/4" empty_state
     = push_log (Ignoring Multicast (IPv4Network (mknet (ip4 224 0 0 0) 4))) empty_state.
Proof.
  assert (Hp : ip_network python_ipaddress "224.0.0.0/4"
               = Some (IPv4Network (mknet (ip4 224 0 0 0) 4))) by (vm_compute; reflexivity).
  split; [exact Hp|].
  apply (add_addr_screening python_ipaddress _ _ empty_state Hp). vm_compute. reflexivity.
Defined.

(** C8 (retry policy of [resolve_dns]): after [k] calls that raise with
    [EAI_AGAIN], each logged and followed by a retry of the same domain and a
    sleep of 500 ms, a successful call returns its addresses and a failure
    with any other code is logged and returns the empty set; a result is
    only returned after such a call; if every call raises [EAI_AGAIN] the
    function never returns. *)
Theorem resolve_dns_retry (getaddrinfo : option string -> nat -> gai_result) (d : option string) :
  (forall k, (forall i, (i < k)%nat -> getaddrinfo d i = GaiError EAI_AGAIN) ->
     (forall sockaddrs fuel, getaddrinfo d k = GaiOk sockaddrs -> (k < fuel)%nat ->
        resolve_dns getaddrinfo fuel d
        = Some (fold_left (fun s a => set_add String.eqb a s) sockaddrs [],
                retry_trace d k ++ [Lookup d]))
     /\ (forall code fuel, getaddrinfo d k = GaiError code -> code <> EAI_AGAIN ->
           (k < fuel)%nat ->
           resolve_dns getaddrinfo fuel d
           = Some ([], retry_trace d k ++ [Lookup d; LogCantResolve d code])))
  /\ (forall fuel r, resolve_dns getaddrinfo fuel d = Some r ->
        exists k, (k < fuel)%nat
          /\ (forall i, (i < k)%nat -> getaddrinfo d i = GaiError EAI_AGAIN)
          /\ getaddrinfo d k <> GaiError EAI_AGAIN)
  /\ ((forall i, getaddrinfo d i = GaiError EAI_AGAIN) ->
        forall fuel, resolve_dns getaddrinfo fuel d = None).
Proof.
  split; [|split].
  - intros k Hk.
    assert (R : forall f, resolve_dns getaddrinfo (k + S f) d
                          = resolve_loop getaddrinfo (S f) d k [] (retry_trace d k)).
    { intros f. unfold resolve_dns.
      rewrite (resolve_loop_retries getaddrinfo d k 0 [] [] (S f)) by (intros i Hi; apply Hk; lia).
      reflexivity. }
    split.
    + intros l fuel G Hf. replace fuel with (k + S (fuel - S k))%nat by lia.
      rewrite R. cbn [resolve_loop]. now rewrite G.
    + intros code fuel G Hne Hf. replace fuel with (k + S (fuel - S k))%nat by lia.
      rewrite R. cbn [resolve_loop]. rewrite G.
      apply Z.eqb_neq in Hne. now rewrite Hne.
  - intros fuel r E. destruct (resolve_loop_returns getaddrinfo d fuel 0 [] [] r E)
      as (k & Hk & Hb & Hk'). exists k. split; [lia|]. split; [|exact Hk'].
    intros i Hi. apply Hb. lia.
  - intros H fuel. apply resolve_loop_stuck. exact H.
Qed.

Lemma resolve_dns_retry_witness :
  (forall i, (i < 2)%nat ->
     (fun (_ : option string) (k : nat) =>
        if (k <? 2)%nat then GaiError EAI_AGAIN else GaiOk ["192.0.2.1"%string; "192.0.2.1"%string])
       (Some "example.org"%string) i = GaiError EAI_AGAIN)
  /\ resolve_dns
       (fun _ k => if (k <? 2)%nat then GaiError EAI_AGAIN else GaiOk ["192.0.2.1"%string; "192.0.2.1"%string])
       5%nat (Some "example.org"%string)
     = Some (["192.0.2.1"%string], retry_trace (Some "example.org"%string) 2 ++ [Lookup (Some "example.org"%string)]).
Proof.
  assert (Hk : forall i, (i < 2)%nat ->
     (fun (_ : option string) (k : nat) =>
        if (k <? 2)%nat then GaiError EAI_AGAIN else GaiOk ["192.0.2.1"%string; "192.0.2.1"%string])
       (Some "example.org"%string) i = GaiError EAI_AGAIN).
  { intros i Hi. cbv beta. apply Nat.ltb_lt in Hi. now rewrite Hi. }
  split; [exact Hk|].
  apply (proj1 (proj1 (resolve_dns_retry _ (Some "example.org"%string)) 2%nat Hk) ["192.0.2.1"%string; "192.0.2.1"%string] 5%nat);
    [reflexivity|lia].
Defined.

(** C9 (URL hostnames): [urlsplit] finds a netloc only after [//], whatever
    the default scheme, so the token example.com/path has no hostname and
    [None] is added to [domains]; with an explicit scheme the host is found. *)
Theorem url_without_scheme_hostname :
  urlsplit_hostname "example.com/path" = Some None
  /\ urlsplit_hostname "http://example.com/path" = Some (Some "example.com"%string)
  /\ run python_ipaddress no_resolver (dump_of "" "" "example.com/path") 1
     = inr ([], [], mkstate [] [None] []).
Proof. vm_compute. repeat split. Qed.

(** C10 (empty input): [run] on a dump with no record at all raises
    [StopIteration] from [next(reader)], and the first record is skipped
    whatever it holds. *)
Theorem run_empty_dump (lib : ipaddress_lib) (resolve : option string -> list string) (jobs : Z)
  (header header' : list string) (rows : list (list string)) :
  run lib resolve [] jobs = inl StopIteration
  /\ run lib resolve (header :: rows) jobs = run lib resolve (header' :: rows) jobs.
Proof. split; reflexivity. Qed.

(** ** Further properties of [merge] *)

Section MergeMore.

Variable w : Z.
Hypothesis w_pos : 0 < w.

Lemma add_merged_length : forall s a, (List.length (add_merged w s a) <= S (List.length s))%nat.
Proof.
  induction s as [|prev rest IH]; intros a; cbn [add_merged]; [cbn; lia|].
  destruct (subnet_of w a prev); [cbn; lia|].
  destruct (negb (nets_eqb w (subnets w (supernet w a)) [prev; a])); [cbn; lia|].
  specialize (IH (supernet w a)). cbn. lia.
Qed.

Lemma fold_add_merged_length : forall L s,
  (List.length (fold_left (add_merged w) L s) <= List.length L + List.length s)%nat.
Proof.
  induction L as [|a L IH]; intros s; [cbn; lia|].
  cbn [fold_left]. specialize (IH (add_merged w s a)).
  pose proof (add_merged_length s a). cbn. lia.
Qed.

(** [merge] never returns more networks than it is given. *)
Theorem merge_length : forall X, (List.length (merge w X) <= List.length X)%nat.
Proof.
  intros X. rewrite <- (Permutation_length (sort_perm w X)).
  unfold merge. destruct (sort w X) as [|a L]; [cbn; lia|].
  rewrite length_rev. pose proof (fold_add_merged_length (a :: L) []). cbn in *. lia.
Qed.

Lemma net_lt_antisym : forall a b, wf w a -> wf w b ->
  net_lt w a b = false -> net_lt w b a = false -> a = b.
Proof.
  intros a b Ha Hb H1 H2.
  pose proof (wf_prefixlen w a Ha). pose proof (wf_prefixlen w b Hb).
  apply net_lt_false_iff in H1; [|lia ..]. apply net_lt_false_iff in H2; [|lia ..].
  destruct a as [ba pa], b as [bb pb]; cbn in *. f_equal; lia.
Qed.

Lemma sorted_head_le : forall a l, Forall (wf w) (a :: l) ->
  chain (fun x y => net_lt w y x = false) (a :: l) ->
  forall y, In y l -> net_lt w y a = false.
Proof.
  intros a l. revert a. induction l as [|b l IH]; intros a Hwf Hc y Hy; [destruct Hy|].
  destruct Hc as [Hab Hc]. destruct Hy as [<-|Hy]; [exact Hab|].
  inversion Hwf as [|? ? Ha Hwf']. inversion Hwf' as [|? ? Hb Hwf''].
  apply (lex_trans w w_pos a b y); auto.
  all: first [apply (IH b); auto | rewrite Forall_forall in Hwf''; auto].
Qed.

Lemma sorted_perm_eq : forall l1 l2, Forall (wf w) l1 ->
  chain (fun x y => net_lt w y x = false) l1 ->
  chain (fun x y => net_lt w y x = false) l2 ->
  Permutation l1 l2 -> l1 = l2.
Proof.
  induction l1 as [|a t1 IH]; intros l2 Hwf Hc1 Hc2 Hp.
  - symmetry. now apply Permutation_nil.
  - destruct l2 as [|b t2]; [apply Permutation_sym, Permutation_nil_cons in Hp; contradiction|].
    assert (Hwf2 : Forall (wf w) (b :: t2)) by (eapply Permutation_Forall; eauto).
    assert (Hab : a = b).
    { apply net_lt_antisym.
      - now inversion Hwf.
      - now inversion Hwf2.
      - assert (Ha : In a (b :: t2)) by (apply (Permutation_in _ Hp); now left).
        destruct Ha as [->|Ha]; [apply net_lt_irrefl|]. exact (sorted_head_le b t2 Hwf2 Hc2 a Ha).
      - assert (Hb : In b (a :: t1)) by (apply (Permutation_in _ (Permutation_sym Hp)); now left).
        destruct Hb as [<-|Hb]; [apply net_lt_irrefl|]. exact (sorted_head_le a t1 Hwf Hc1 b Hb). }
    subst b. f_equal. apply IH.
    + now inversion Hwf.
    + exact (chain_tail _ _ _ Hc1).
    + exact (chain_tail _ _ _ Hc2).
    + exact (Permutation_cons_inv Hp).
Qed.

(** The output of [merge] does not depend on the order in which the set
    yields its networks. *)
Theorem merge_permutation : forall X Y, Forall (wf w) X -> Permutation X Y ->
  merge w X = merge w Y.
Proof.
  intros X Y HX Hp.
  assert (E : sort w X = sort w Y).
  { apply sorted_perm_eq.
    - now apply sort_wf.
    - apply sort_chain.
    - apply sort_chain.
    - eapply perm_trans; [apply sort_perm|]. eapply perm_trans; [exact Hp|].
      apply Permutation_sym, sort_perm. }
  unfold merge. now rewrite E.
Qed.

Lemma subnet_of_refl : forall a, subnet_of w a a = true.
Proof. intros a. unfold subnet_of. now rewrite !Z.leb_refl. Qed.

Lemma subnet_of_trans : forall a b c, subnet_of w a b = true -> subnet_of w b c = true ->
  subnet_of w a c = true.
Proof.
  unfold subnet_of. intros a b c H1 H2. rewrite !andb_true_iff, !Z.leb_le in *. lia.
Qed.

(** Both halves lie inside the parent the code builds from the upper one. *)
Lemma siblings_in_supernet : forall a b, wf w a -> wf w b -> siblings w a b ->
  subnet_of w a (supernet w b) = true /\ subnet_of w b (supernet w b) = true.
Proof.
  intros a b Ha Hb Hs. pose proof (supernet_wf w w_pos b Hb) as HS.
  rewrite (siblings_supernet w w_pos a b Hb Hs) in HS |- *.
  pose proof (wf_prefixlen w a Ha). pose proof (wf_prefixlen w b Hb).
  destruct Hs as (Hpl & Hp & Hbase & Hal).
  split; apply subnet_of_iff; auto; cbn [network_address prefixlen].
  - split; [lia|]. replace (w - (prefixlen a - 1)) with ((w - prefixlen a) + 1) by lia.
    rewrite pow2_double by lia. pose proof (pow2_pos (w - prefixlen a)). lia.
  - rewrite Hbase, <- Hpl. split; [pose proof (pow2_pos (w - prefixlen a)); lia|].
    replace (w - (prefixlen a - 1)) with ((w - prefixlen a) + 1) by lia.
    rewrite pow2_double by lia. lia.
Qed.

Lemma add_merged_contains : forall s a, Forall (wf w) s -> wf w a ->
  (exists m, In m (add_merged w s a) /\ subnet_of w a m = true)
  /\ (forall n, In n s -> exists m, In m (add_merged w s a) /\ subnet_of w n m = true).
Proof.
  induction s as [|prev rest IH]; intros a Hs Ha.
  - split; [exists a; split; [now left|apply subnet_of_refl]|intros n []].
  - inversion Hs as [|? ? Hprev Hrest]; subst.
    cbn [add_merged]. destruct (subnet_of w a prev) eqn:Hsub.
    + split; [exists prev; split; [now left|exact Hsub]|].
      intros n Hn. exists n. split; [exact Hn|apply subnet_of_refl].
    + destruct (nets_eqb w (subnets w (supernet w a)) [prev; a]) eqn:Heq; cbn [negb].
      * apply siblings_check in Heq; [|assumption ..].
        destruct (siblings_in_supernet prev a Hprev Ha Heq) as [Sp Sa].
        destruct (IH (supernet w a) Hrest (supernet_wf w w_pos a Ha)) as [[m [Hm Hsm]] Hr].
        split.
        -- exists m. split; [exact Hm|]. exact (subnet_of_trans _ _ _ Sa Hsm).
        -- intros n [<-|Hn].
           ++ exists m. split; [exact Hm|]. exact (subnet_of_trans _ _ _ Sp Hsm).
           ++ exact (Hr n Hn).
      * split; [exists a; split; [now left|apply subnet_of_refl]|].
        intros n Hn. exists n. split; [now right|apply subnet_of_refl].
Qed.

Lemma fold_add_merged_contains : forall L s, Forall (wf w) L -> Forall (wf w) s ->
  forall n, In n L \/ In n s ->
  exists m, In m (fold_left (add_merged w) L s) /\ subnet_of w n m = true.
Proof.
  induction L as [|a L IH]; intros s HL Hs n Hn.
  - destruct Hn as [[]|Hn]. exists n. split; [exact Hn|apply subnet_of_refl].
  - inversion HL as [|? ? Ha HL']; subst. cbn [fold_left].
    destruct (add_merged_contains s a Hs Ha) as [[m [Hm Ham]] Hold].
    pose proof (add_merged_wf w w_pos s a Hs Ha) as Hs'.
    destruct Hn as [[<-|Hn]|Hn].
    + destruct (IH _ HL' Hs' m (or_intror Hm)) as (m' & Hm' & H').
      exists m'. split; [exact Hm'|]. exact (subnet_of_trans _ _ _ Ham H').
    + exact (IH _ HL' Hs' n (or_introl Hn)).
    + destruct (Hold n Hn) as (m1 & Hm1 & H1).
      destruct (IH _ HL' Hs' m1 (or_intror Hm1)) as (m' & Hm' & H').
      exists m'. split; [exact Hm'|]. exact (subnet_of_trans _ _ _ H1 H').
Qed.

(** No input network is split: each lies inside a single output network. *)
Theorem merge_input_inside_output : forall X, Forall (wf w) X ->
  forall n, In n X -> exists m, In m (merge w X) /\ subnet_of w n m = true.
Proof.
  intros X HX n Hn.
  apply (Permutation_in _ (Permutation_sym (sort_perm w X))) in Hn.
  pose proof (sort_wf w X HX) as HS.
  unfold merge. destruct (sort w X) as [|a L]; [destruct Hn|].
  destruct (fold_add_merged_contains (a :: L) [] HS (Forall_nil _) n (or_introl Hn))
    as (m & Hm & H). exists m. split; [now apply in_rev in Hm|exact H].
Qed.

End MergeMore.

(** ** Further properties of [run] and [resolve_dns] *)

Section RunMore.

Variable lib : ipaddress_lib.

Lemma add_addr_domains (s : string) (st : run_state) :
  domains (add_addr lib s st) = domains st.
Proof.
  unfold add_addr. destruct (ip_network lib s) as [a|]; [|reflexivity].
  destruct (is_multicast lib a); [reflexivity|].
  destruct (is_private lib a); [reflexivity|].
  destruct (is_unspecified lib a); [reflexivity|].
  destruct (is_reserved lib a); [reflexivity|].
  destruct (is_loopback lib a); [reflexivity|].
  destruct (is_link_local lib a); reflexivity.
Qed.

Lemma fold_left_same_domains {B : Type} (f : run_state -> B -> run_state)
  (Hf : forall st x, domains (f st x) = domains st) (l : list B) (st : run_state) :
  domains (fold_left f l st) = domains st.
Proof.
  revert st. induction l as [|x l IH]; intros st; [reflexivity|].
  cbn [fold_left]. rewrite IH. apply Hf.
Qed.

Lemma fold_add_addr_domains (l : list string) (st : run_state) :
  domains (fold_left (fun st a => add_addr lib a st) l st) = domains st.
Proof. apply fold_left_same_domains. intros. apply add_addr_domains. Qed.

Lemma process_row_jobs0 (st : run_state) (row : list string) :
  process_row lib 0 st row = process_row lib 0 st (firstn 1 row).
Proof. destruct row; reflexivity. Qed.

Lemma process_rows_jobs0 (rows : list (list string)) (st : run_state) :
  process_rows lib 0 rows st = process_rows lib 0 (map (firstn 1) rows) st.
Proof.
  revert st. induction rows as [|row rows IH]; intros st; [reflexivity|].
  cbn [process_rows map]. rewrite process_row_jobs0.
  destruct (process_row lib 0 st (firstn 1 row)); [reflexivity|]. apply IH.
Qed.

Lemma process_rows_jobs0_domains (rows : list (list string)) (st st' : run_state) :
  process_rows lib 0 rows st = inr st' -> domains st' = domains st.
Proof.
  revert st. induction rows as [|row rows IH]; intros st E.
  - injection E as <-. reflexivity.
  - cbn [process_rows] in E. destruct row as [|f0 rest]; [discriminate|].
    cbn in E. rewrite (IH _ E). apply fold_add_addr_domains.
Qed.

(** With [dns_jobs = 0] only the first field of each record is read, the
    resolver is never used and the domain set stays empty. *)
Theorem run_without_dns (resolve resolve' : option string -> list string)
  (header : list string) (rows : list (list string)) :
  run lib resolve (header :: rows) 0 = run lib resolve' (header :: map (firstn 1) rows) 0
  /\ (forall v4 v6 st, run lib resolve (header :: rows) 0 = inr (v4, v6, st) -> domains st = []).
Proof.
  split.
  - cbn [run]. now rewrite process_rows_jobs0.
  - intros v4 v6 st E. cbn [run] in E.
    destruct (process_rows lib 0 rows empty_state) as [e|st0] eqn:Er; [discriminate|].
    cbn in E. injection E as _ _ <-. exact (process_rows_jobs0_domains rows empty_state st0 Er).
Qed.




End RunMore.

Lemma set_add_In {A : Type} (eqb : A -> A -> bool) (x y : A) (s : list A) :
  In y (set_add eqb x s) -> y = x \/ In y s.
Proof.
  unfold set_add. destruct (existsb (eqb x) s); [now right|].
  intros H. apply in_app_or in H. destruct H as [H|[H|[]]]; [now right|now left].
Qed.

Lemma hostname_of_nonempty (netloc : list ascii) : hostname_of netloc <> Some EmptyString.
Proof.
  unfold hostname_of.
  destruct (partition_list "[" (after_last "@" netloc)) as [[b1 f1] a1].
  destruct (if f1 then fst (fst (partition_list "]" a1))
            else fst (fst (partition_list ":" (after_last "@" netloc)))) as [|c rest];
    [discriminate|].
  cbn [partition_list]. destruct (Ascii.eqb c "%") eqn:Ec.
  - cbn. discriminate.
  - destruct (partition_list "%" rest) as [[h pct] zone]. cbn. discriminate.
Qed.

Lemma urlsplit_hostname_nonempty (url : string) : urlsplit_hostname url <> Some (Some EmptyString).
Proof.
  unfold urlsplit_hostname. cbv zeta.
  match goal with
  | |- (if ?c1 then None else if ?c2 then None else Some (hostname_of ?n)) <> _ =>
      destruct c1; [discriminate|]; destruct c2; [discriminate|]
  end.
  intros E. injection E. apply hostname_of_nonempty.
Qed.

Section RunDomains.

Variable lib : ipaddress_lib.

Lemma add_domain_token_ok (st : run_state) (d : string) :
  ~ In (Some EmptyString) (domains st) -> ~ In (Some EmptyString) (domains (add_domain_token st d)).
Proof.
  unfold add_domain_token. intros H.
  destruct (String.eqb_spec (strip_wildcard d) EmptyString) as [E|E]; [exact H|].
  cbn [add_to_domains domains]. intros Hin. apply set_add_In in Hin.
  destruct Hin as [Hin|Hin]; [injection Hin as Hin; congruence|contradiction].
Qed.

Lemma add_url_token_ok (st : run_state) (u : string) :
  ~ In (Some EmptyString) (domains st) -> ~ In (Some EmptyString) (domains (add_url_token st u)).
Proof.
  unfold add_url_token. intros H.
  destruct (urlsplit_hostname u) as [h|] eqn:Eu; [|exact H].
  cbn [add_to_domains domains]. intros Hin. apply set_add_In in Hin.
  destruct Hin as [<-|Hin]; [exact (urlsplit_hostname_nonempty u Eu)|contradiction].
Qed.

Lemma fold_domains_ok {B : Type} (f : run_state -> B -> run_state)
  (Hf : forall st x, ~ In (Some EmptyString) (domains st) ->
                     ~ In (Some EmptyString) (domains (f st x)))
  (l : list B) (st : run_state) :
  ~ In (Some EmptyString) (domains st) -> ~ In (Some EmptyString) (domains (fold_left f l st)).
Proof.
  revert st. induction l as [|x l IH]; intros st H; [exact H|]. cbn [fold_left]. auto.
Qed.

Lemma process_rows_domains_ok (jobs : Z) (rows : list (list string)) (st st' : run_state) :
  ~ In (Some EmptyString) (domains st) -> process_rows lib jobs rows st = inr st' ->
  ~ In (Some EmptyString) (domains st').
Proof.
  revert st. induction rows as [|row rows IH]; intros st H E.
  - injection E as <-. exact H.
  - cbn [process_rows] in E.
    destruct (process_row lib jobs st row) as [e|st1] eqn:Er; [discriminate|].
    apply (IH st1); [|exact E].
    unfold process_row in Er.
    destruct (nth_error row 0) as [f0|]; [|discriminate].
    assert (H0 : ~ In (Some EmptyString)
                   (domains (fold_left (fun st a => add_addr lib a st) (iter_field f0) st)))
      by (now rewrite fold_add_addr_domains).
    destruct (jobs =? 0); [injection Er as <-; exact H0|].
    destruct (nth_error row 1) as [f1|]; [|discriminate].
    destruct (nth_error row 2) as [f2|]; [|discriminate].
    injection Er as <-.
    apply fold_domains_ok; [exact add_url_token_ok|].
    apply fold_domains_ok; [exact add_domain_token_ok|exact H0].
Qed.

Lemma resolve_domains_domains (resolve : option string -> list string) (st : run_state) :
  domains (resolve_domains lib resolve st) = domains st.
Proof.
  unfold resolve_domains. generalize (domains st) at 1. intros ds.
  revert st. induction ds as [|d ds IH]; intros st; [reflexivity|].
  cbn [fold_left]. rewrite IH. apply fold_add_addr_domains.
Qed.

(** The domain set never holds an empty name: the domain field drops names
    that are empty once [*.] is removed, and a URL hostname is never the
    empty string (an empty one is [None]). *)
Theorem run_no_empty_domain (resolve : option string -> list string)
  (dump : list (list string)) (jobs : Z) (v4 v6 : list net) (st : run_state)
  (Hrun : run lib resolve dump jobs = inr (v4, v6, st)) :
  ~ In (Some EmptyString) (domains st).
Proof.
  unfold run in Hrun. destruct dump as [|h rows]; [discriminate|].
  destruct (process_rows lib jobs rows empty_state) as [e|st0] eqn:Er; [discriminate|].
  pose proof (process_rows_domains_ok jobs rows empty_state st0 (fun H => H) Er) as H0.
  destruct (jobs =? 0); [injection Hrun as _ _ <-; exact H0|].
  destruct (jobs <? 0); [discriminate|].
  injection Hrun as _ _ <-. now rewrite resolve_domains_domains.
Qed.

(** The IPv4 and IPv6 outputs cover exactly the addresses of the networks of
    that family left in the address set. *)
Theorem run_output_union (resolve : option string -> list string)
  (dump : list (list string)) (jobs : Z) (v4 v6 : list net) (st : run_state)
  (Hlib : lib_wf lib) (Hrun : run lib resolve dump jobs = inr (v4, v6, st)) :
  forall x, covers_list 32 v4 x = covers_list 32 (v4_blocks (addrs st)) x
            /\ covers_list 128 v6 x = covers_list 128 (v6_blocks (addrs st)) x.
Proof.
  destruct (run_result lib Hlib resolve dump jobs v4 v6 st Hrun) as (G & -> & ->).
  unfold good_state in G. rewrite Forall_forall in G. intros x.
  split; apply merge_covers_list; try lia; apply Forall_forall; intros n Hn.
  - apply v4_blocks_In in Hn. exact (proj2 (G _ Hn)).
  - apply v6_blocks_In in Hn. exact (proj2 (G _ Hn)).
Qed.

End RunDomains.



(** ** Further properties of [iter_field] *)

Section Strip.

Variable f : ascii -> bool.

Lemma lstrip_head_not : forall l, head_not f (lstrip_list f l).
Proof.
  induction l as [|c l IH]; [exact I|]. cbn [lstrip_list].
  destruct (f c) eqn:E; [exact IH|exact E].
Qed.

Lemma lstrip_of_head_not : forall l, head_not f l -> lstrip_list f l = l.
Proof. intros [|c l] H; [reflexivity|]. cbn in *. now rewrite H. Qed.

Lemma lstrip_suffix : forall l, exists p, l = p ++ lstrip_list f l.
Proof.
  induction l as [|c l [p IH]]; [exists []; reflexivity|]. cbn [lstrip_list].
  destruct (f c); [exists (c :: p); cbn; now f_equal|exists []; reflexivity].
Qed.

Lemma head_not_app : forall l1 l2, head_not f (l1 ++ l2) -> head_not f l1.
Proof. intros [|c l1] l2 H; [exact I|exact H]. Qed.

Lemma strip_list_idem : forall l,
  rev (lstrip_list f (rev (lstrip_list f
    (rev (lstrip_list f (rev (lstrip_list f l)))))))
  = rev (lstrip_list f (rev (lstrip_list f l))).
Proof.
  intros l. set (A := lstrip_list f (rev (lstrip_list f l))).
  assert (HB : lstrip_list f (rev A) = rev A).
  { apply lstrip_of_head_not. destruct (lstrip_suffix (rev (lstrip_list f l))) as [p Hp].
    fold A in Hp. apply (f_equal (@rev ascii)) in Hp. rewrite rev_involutive, rev_app_distr in Hp.
    pose proof (lstrip_head_not l) as H. rewrite Hp in H. exact (head_not_app _ _ H). }
  rewrite HB, rev_involutive. rewrite (lstrip_of_head_not A (lstrip_head_not _)). reflexivity.
Qed.

Lemma lstrip_incl : forall l c, In c (lstrip_list f l) -> In c l.
Proof.
  intros l c H. destruct (lstrip_suffix l) as [p Hp]. rewrite Hp. apply in_or_app. now right.
Qed.

End Strip.

Lemma py_strip_idem (s : string) : py_strip (py_strip s) = py_strip s.
Proof.
  unfold py_strip. rewrite list_ascii_of_string_of_list_ascii. now rewrite strip_list_idem.
Qed.

Lemma py_strip_incl (s : string) (c : ascii) :
  In c (list_ascii_of_string (py_strip s)) -> In c (list_ascii_of_string s).
Proof.
  unfold py_strip. rewrite list_ascii_of_string_of_list_ascii. intros H.
  apply in_rev in H. apply lstrip_incl in H. apply in_rev in H. now apply lstrip_incl in H.
Qed.

Lemma py_split_aux_no_sep (sep : ascii) (s : string) : forall cur,
  ~ In sep cur -> forall t, In t (py_split_aux sep s cur) -> ~ In sep (list_ascii_of_string t).
Proof.
  induction s as [|c s IH]; intros cur Hcur t Ht.
  - destruct Ht as [<-|[]]. rewrite list_ascii_of_string_of_list_ascii. now rewrite <- in_rev.
  - cbn [py_split_aux] in Ht. destruct (Ascii.eqb_spec c sep) as [E|E].
    + destruct Ht as [<-|Ht].
      * rewrite list_ascii_of_string_of_list_ascii. now rewrite <- in_rev.
      * apply (IH [] (fun H => H) t Ht).
    + apply (IH (c :: cur)); [|exact Ht]. intros [H|H]; [congruence|contradiction].
Qed.

(** Each item [iter_field] yields is non-empty, contains no [|], and is
    left unchanged by [str.strip()]. *)
Theorem iter_field_items (field t : string) (H : In t (iter_field field)) :
  t <> EmptyString /\ py_strip t = t /\ ~ In "|"%char (list_ascii_of_string t).
Proof.
  unfold iter_field in H. apply filter_In in H. destruct H as [H Hne].
  apply in_map_iff in H. destruct H as (piece & <- & Hp).
  split; [intros E; rewrite E in Hne; discriminate|]. split; [apply py_strip_idem|].
  intros Hbar. apply py_strip_incl in Hbar.
  exact (py_split_aux_no_sep "|" field [] (fun H => H) piece Hp Hbar).
Qed.

Lemma py_split_aux_piece (sep : ascii) (t : string) : forall rest cur,
  ~ In sep (list_ascii_of_string t) ->
  py_split_aux sep (t ++ rest) cur = py_split_aux sep rest (rev (list_ascii_of_string t) ++ cur).
Proof.
  induction t as [|c t IH]; intros rest cur H; [reflexivity|].
  cbn [String.append py_split_aux list_ascii_of_string].
  destruct (Ascii.eqb_spec c sep) as [E|E]; [subst; exfalso; apply H; now left|].
  rewrite IH by (intros H'; apply H; now right). cbn. now rewrite <- app_assoc.
Qed.

Lemma append_empty_r (s : string) : (s ++ EmptyString)%string = s.
Proof. induction s as [|c s IH]; [reflexivity|]. cbn. now rewrite IH. Qed.

Lemma py_split_concat (sep : ascii) (toks : list string) : forall t,
  Forall (fun t => ~ In sep (list_ascii_of_string t)) (t :: toks) ->
  py_split sep (String.concat (String sep EmptyString) (t :: toks)) = t :: toks.
Proof.
  unfold py_split. induction toks as [|t2 toks IH]; intros t H; inversion H as [|? ? Ht Hr]; subst.
  - cbn [String.concat]. rewrite <- (append_empty_r t) at 1.
    rewrite py_split_aux_piece by exact Ht. cbn. rewrite app_nil_r, rev_involutive.
    now rewrite string_of_list_ascii_of_string.
  - change (String.concat (String sep EmptyString) (t :: t2 :: toks))
      with (t ++ String sep (String.concat (String sep EmptyString) (t2 :: toks)))%string.
    rewrite py_split_aux_piece by exact Ht. cbn [py_split_aux].
    rewrite Ascii.eqb_refl, app_nil_r, rev_involutive, string_of_list_ascii_of_string.
    f_equal. exact (IH t2 Hr).
Qed.

(** Round trip: joining non-empty, already stripped items that contain no
    [|] with [|] and passing the result to [iter_field] gives the items back. *)
Theorem iter_field_join (toks : list string)
  (H : Forall (fun t => t <> EmptyString /\ py_strip t = t
                        /\ ~ In "|"%char (list_ascii_of_string t)) toks) :
  iter_field (String.concat "|" toks) = toks.
Proof.
  unfold iter_field. destruct toks as [|t toks]; [reflexivity|].
  rewrite (py_split_concat "|" toks t) by (eapply Forall_impl; [|exact H]; cbn; tauto).
  induction (t :: toks) as [|x l IH]; [reflexivity|].
  inversion H as [|? ? (Hne & Hs & _) Hr]; subst.
  cbn [map filter]. rewrite Hs. destruct (String.eqb_spec x EmptyString) as [E|E]; [contradiction|].
  cbn. f_equal. now apply IH.
Qed.

(** ** Further properties of [urlsplit(...).hostname] *)

Lemma partition_list_absent (c : ascii) (l : list ascii) :
  ~ In c l -> partition_list c l = (l, false, []).
Proof.
  induction l as [|x l IH]; intros H; [reflexivity|]. cbn [partition_list].
  destruct (Ascii.eqb_spec x c) as [E|E]; [subst; exfalso; apply H; now left|].
  rewrite IH by (intros H'; apply H; now right). reflexivity.
Qed.

Lemma partition_list_first (c : ascii) (l r : list ascii) :
  ~ In c l -> partition_list c (l ++ c :: r) = (l, true, r).
Proof.
  induction l as [|x l IH]; intros H; cbn [partition_list app].
  - now rewrite Ascii.eqb_refl.
  - destruct (Ascii.eqb_spec x c) as [E|E]; [subst; exfalso; apply H; now left|].
    rewrite IH by (intros H'; apply H; now right). reflexivity.
Qed.


Lemma filter_ctl_keep (c : ascii) : (32 < nat_of_ascii c)%nat ->
  negb (Ascii.eqb c "009" || Ascii.eqb c "013" || Ascii.eqb c "010") = true.
Proof.
  intros H.
  destruct (Ascii.eqb_spec c "009") as [->|]; [cbn in H; lia|].
  destruct (Ascii.eqb_spec c "013") as [->|]; [cbn in H; lia|].
  destruct (Ascii.eqb_spec c "010") as [->|]; [cbn in H; lia|].
  reflexivity.
Qed.


Lemma scheme_char_visible (c : ascii) : scheme_char c = true -> (32 < nat_of_ascii c)%nat.
Proof.
  unfold scheme_char. rewrite !orb_true_iff, !andb_true_iff, !Nat.leb_le, !Nat.eqb_eq. lia.
Qed.

Lemma host_char_visible (c : ascii) : is_host_char c = true -> (32 < nat_of_ascii c)%nat.
Proof.
  unfold is_host_char. rewrite !orb_true_iff, !andb_true_iff, !Nat.leb_le, !Nat.eqb_eq. lia.
Qed.

Lemma host_char_not (c d : ascii) : is_host_char c = true -> is_host_char d = false -> c <> d.
Proof. intros H1 H2 ->. congruence. Qed.

Lemma forallb_not_In (g : ascii -> bool) (d : ascii) (l : list ascii) :
  forallb g l = true -> g d = false -> ~ In d l.
Proof.
  intros H Hd Hin. rewrite forallb_forall in H. specialize (H d Hin). congruence.
Qed.

Lemma existsb_absent (d : ascii) (l : list ascii) :
  ~ In d l -> existsb (fun c => Ascii.eqb c d) l = false.
Proof.
  intros H. apply not_true_is_false. intros E. apply existsb_exists in E.
  destruct E as [c [Hin Ec]]. apply Ascii.eqb_eq in Ec. subst. contradiction.
Qed.

Lemma filter_keep_all (g : ascii -> bool) (l : list ascii) :
  (forall c, In c l -> g c = true) -> filter g l = l.
Proof.
  induction l as [|c l IH]; intros H; [reflexivity|]. cbn.
  rewrite (H c (or_introl eq_refl)). f_equal. apply IH. intros x Hx. apply H. now right.
Qed.

Lemma netloc_part_host (h r : list ascii) : forallb is_host_char h = true ->
  netloc_part (h ++ "/"%char :: r) = h.
Proof.
  induction h as [|c h IH]; intros H; [reflexivity|].
  cbn [forallb] in H. apply andb_true_iff in H. destruct H as [Hc H].
  cbn [app netloc_part].
  destruct (Ascii.eqb_spec c "/") as [->|]; [discriminate|].
  destruct (Ascii.eqb_spec c "?") as [->|]; [discriminate|].
  destruct (Ascii.eqb_spec c "#") as [->|]; [discriminate|].
  cbn. f_equal. now apply IH.
Qed.

Lemma lower_host (h : list ascii) : forallb is_host_char h = true -> map ascii_lower h = h.
Proof.
  induction h as [|c h IH]; intros H; [reflexivity|].
  cbn [forallb] in H. apply andb_true_iff in H. destruct H as [Hc H].
  cbn [map]. rewrite IH by exact H. f_equal. unfold ascii_lower.
  unfold is_host_char in Hc. cbv zeta in Hc.
  destruct ((65 <=? nat_of_ascii c) && (nat_of_ascii c <=? 90))%nat eqn:E; [|reflexivity].
  exfalso. rewrite !orb_true_iff, !andb_true_iff, !Nat.leb_le, !Nat.eqb_eq in Hc.
  rewrite !andb_true_iff, !Nat.leb_le in E. lia.
Qed.

(** With an explicit scheme, [scheme://host/...] yields [host] for a plain
    lower-case host name, whatever the path. *)
Theorem urlsplit_scheme_host (c0 : ascii) (sc h path : list ascii)
  (Halpha : is_ascii_alpha c0 = true) (Hsc : forallb scheme_char (c0 :: sc) = true)
  (Hh : h <> []) (Hhost : forallb is_host_char h = true) :
  urlsplit_hostname
    (string_of_list_ascii ((c0 :: sc) ++ ":"%char :: "/"%char :: "/"%char :: h ++ "/"%char :: path))
  = Some (Some (string_of_list_ascii h)).
Proof.
  unfold urlsplit_hostname. cbv zeta. rewrite list_ascii_of_string_of_list_ascii.
  assert (Hc0 : (32 < nat_of_ascii c0)%nat).
  { apply scheme_char_visible. cbn [forallb] in Hsc. now apply andb_true_iff in Hsc. }
  rewrite lstrip_of_head_not by (cbn; now apply Nat.leb_gt).
  set (g := fun c => negb (Ascii.eqb c "009" || Ascii.eqb c "013" || Ascii.eqb c "010")).
  assert (Hg : forall c, (32 < nat_of_ascii c)%nat -> g c = true) by exact filter_ctl_keep.
  rewrite filter_app.
  rewrite (filter_keep_all g (c0 :: sc)).
  2:{ intros c Hin. apply Hg, scheme_char_visible. rewrite forallb_forall in Hsc. auto. }
  cbn [filter].
  replace (g ":"%char) with true by reflexivity.
  replace (g "/"%char) with true by reflexivity.
  rewrite filter_app. cbn [filter].
  replace (g "/"%char) with true by reflexivity.
  rewrite (filter_keep_all g h).
  2:{ intros c Hin. apply Hg, host_char_visible. rewrite forallb_forall in Hhost. auto. }
  set (fp := filter g path).
  unfold split_scheme.
  rewrite partition_list_first by exact (forallb_not_In _ ":"%char _ Hsc eq_refl).
  cbn [andb]. rewrite Halpha, Hsc. cbn [andb].
  cbv beta iota. rewrite (netloc_part_host h fp Hhost).
  rewrite (existsb_absent "[" h) by exact (forallb_not_In _ "["%char _ Hhost eq_refl).
  rewrite (existsb_absent "]" h) by exact (forallb_not_In _ "]"%char _ Hhost eq_refl).
  cbn [andb orb negb]. unfold hostname_of, after_last.
  rewrite (partition_list_absent "@" (rev h)).
  2:{ rewrite <- in_rev. exact (forallb_not_In _ "@"%char _ Hhost eq_refl). }
  rewrite (partition_list_absent "[" h) by exact (forallb_not_In _ "["%char _ Hhost eq_refl).
  rewrite (partition_list_absent ":" h) by exact (forallb_not_In _ ":"%char _ Hhost eq_refl).
  cbn [fst]. destruct h as [|c h']; [contradiction|].
  rewrite (partition_list_absent "%" (c :: h')) by exact (forallb_not_In _ "%"%char _ Hhost eq_refl).
  rewrite lower_host by exact Hhost. cbn [app]. now rewrite app_nil_r.
Qed.

(** ** Instances of the properties above *)

Lemma merge_permutation_witness :
  Forall (wf 32) sample_nets /\ Permutation sample_nets (rev sample_nets)
  /\ merge 32 sample_nets = merge 32 (rev sample_nets).
Proof.
  assert (HX : Forall (wf 32) sample_nets) by repeat constructor.
  assert (HP : Permutation sample_nets (rev sample_nets)) by apply Permutation_rev.
  split; [exact HX|]. split; [exact HP|].
  exact (merge_permutation 32 ltac:(lia) sample_nets (rev sample_nets) HX HP).
Defined.

Lemma merge_input_inside_output_witness :
  Forall (wf 32) sample_nets /\ In (mknet (ip4 8 8 8 128) 25) sample_nets
  /\ exists m, In m (merge 32 sample_nets) /\ subnet_of 32 (mknet (ip4 8 8 8 128) 25) m = true.
Proof.
  assert (HX : Forall (wf 32) sample_nets) by repeat constructor.
  assert (Hn : In (mknet (ip4 8 8 8 128) 25) sample_nets) by (left; reflexivity).
  split; [exact HX|]. split; [exact Hn|].
  exact (merge_input_inside_output 32 ltac:(lia) sample_nets HX _ Hn).
Defined.


Lemma run_no_empty_domain_witness :
  run python_ipaddress no_resolver (dump_of "8.8.8.0/24" "*.|a.org" "http://x/|a.org") 1
    = inr ([mknet (ip4 8 8 8 0) 24], [],
           mkstate [IPv4Network (mknet (ip4 8 8 8 0) 24)]
             [Some "a.org"%string; Some "x"%string; None] [])
  /\ ~ In (Some EmptyString) [Some "a.org"%string; Some "x"%string; None].
Proof.
  assert (Hrun : run python_ipaddress no_resolver (dump_of "8.8.8.0/24" "*.|a.org" "http://x/|a.org") 1
    = inr ([mknet (ip4 8 8 8 0) 24], [],
           mkstate [IPv4Network (mknet (ip4 8 8 8 0) 24)]
             [Some "a.org"%string; Some "x"%string; None] [])) by (vm_compute; reflexivity).
  split; [exact Hrun|].
  exact (run_no_empty_domain python_ipaddress no_resolver _ 1 _ _ _ Hrun).
Defined.

Lemma run_output_union_witness :
  lib_wf python_ipaddress
  /\ run python_ipaddress no_resolver (dump_of "8.8.8.0/25|8.8.8.128/25" "" "") 0
     = inr ([mknet (ip4 8 8 8 0) 24], [],
            mkstate [IPv4Network (mknet (ip4 8 8 8 0) 25); IPv4Network (mknet (ip4 8 8 8 128) 25)] [] [])
  /\ covers_list 32 [mknet (ip4 8 8 8 0) 24] (ip4 8 8 8 200)
     = covers_list 32 (v4_blocks [IPv4Network (mknet (ip4 8 8 8 0) 25);
                                  IPv4Network (mknet (ip4 8 8 8 128) 25)]) (ip4 8 8 8 200).
Proof.
  assert (Hrun : run python_ipaddress no_resolver (dump_of "8.8.8.0/25|8.8.8.128/25" "" "") 0
     = inr ([mknet (ip4 8 8 8 0) 24], [],
            mkstate [IPv4Network (mknet (ip4 8 8 8 0) 25); IPv4Network (mknet (ip4 8 8 8 128) 25)] [] []))
    by (vm_compute; reflexivity).
  split; [exact python_ipaddress_wf|]. split; [exact Hrun|].
  exact (proj1 (run_output_union python_ipaddress no_resolver _ 0 _ _ _ python_ipaddress_wf Hrun
                  (ip4 8 8 8 200))).
Defined.


Lemma iter_field_items_witness :
  In "b"%string (iter_field " a | |b"%string) /\ py_strip "b"%string = "b"%string.
Proof.
  assert (H : In "b"%string (iter_field " a | |b"%string)) by (vm_compute; right; left; reflexivity).
  split; [exact H|]. exact (proj1 (proj2 (iter_field_items _ _ H))).
Defined.

Lemma iter_field_join_witness :
  iter_field (String.concat "|" ["8.8.8.0/24"%string; "a b"%string]) = ["8.8.8.0/24"%string; "a b"%string].
Proof.
  apply iter_field_join.
  repeat constructor; try discriminate; try (vm_compute; reflexivity);
    cbn; intros H; repeat (destruct H as [H|H]; [discriminate H|]); exact H.
Defined.


Lemma urlsplit_scheme_host_witness :
  urlsplit_hostname
    (string_of_list_ascii (("h"%char :: list_ascii_of_string "ttp") ++ ":"%char :: "/"%char :: "/"%char
                            :: list_ascii_of_string "example.org" ++ "/"%char :: list_ascii_of_string "x"))
  = Some (Some (string_of_list_ascii (list_ascii_of_string "example.org"))).
Proof.
  apply urlsplit_scheme_host; try reflexivity. discriminate.
Defined.
